(** * Person-removal pipeline of [past_images/main.py]

    A shallow embedding of the four stages of the pipeline
    (segment, match face, select mask, inpaint) and of the endpoint that
    sequences them, followed by the properties of the selection and the
    orchestration logic.

    Conventions.
    - Python [int] is [Z]; an [enumerate] index is [nat].
    - A grayscale image read by [cv2.imread] is a list of rows of pixel
      values; [None] (unreadable file) is [None].
    - The overlap percentage, a double in the code, and the distances
      returned by the face library are exact rationals [Q], and the
      comparisons [>= 10] and [<= 0.6] are taken on the exact value; the
      test on doubles is written out next to the exact one and the two are
      compared in [overlap_tests_agree].
    - An exception is a value of [exn]; a function that can raise returns
      a [result].
    - The file system is a finite association from path strings to files;
      the functions that write to it pass a [world] along.
    - The segmenter, the face library, the image decoder and the inpainting
      subprocess are not part of the repository: they are the fields of the
      class [Externals]. *)

From Stdlib Require Import String DecimalString.
From Stdlib Require Import ZArith QArith List Bool Lia Arith.
From Stdlib Require PrimFloat Uint63.
Import ListNotations.

Open Scope string_scope.
Open Scope list_scope.
Open Scope Z_scope.

(** ** Exceptions and results *)

Inductive exn : Type :=
| ValueError (msg : string)
| RuntimeError (msg : string)
| FileNotFoundError (msg : string)
| IndexError (msg : string)
| ZeroDivisionError (msg : string)
| UnidentifiedImageError (msg : string)
| OSError (msg : string)
| HTTPException (status_code : Z) (detail : string).

Inductive result (A : Type) : Type :=
| Return (a : A)
| Raise (e : exn).

Arguments Return {A} a.
Arguments Raise {A} e.

Definition bind {A B : Type} (m : result A) (k : A -> result B) : result B :=
  match m with
  | Return a => k a
  | Raise e => Raise e
  end.

Notation "x <- m ;; k" := (bind m (fun x => k))
  (at level 61, m at next level, right associativity).

(** [str(e)] for the exceptions above. *)
Definition str (e : exn) : string :=
  match e with
  | ValueError msg => msg
  | RuntimeError msg => msg
  | FileNotFoundError msg => msg
  | IndexError msg => msg
  | ZeroDivisionError msg => msg
  | UnidentifiedImageError msg => msg
  | OSError msg => msg
  | HTTPException c d => (NilZero.string_of_int (Z.to_int c) ++ ": " ++ d)%string
  end.

(** ** Python primitives used by the pipeline *)

Definition str_of_nat (n : nat) : string := NilZero.string_of_uint (Nat.to_uint n).
Definition str_of_Z (z : Z) : string := NilZero.string_of_int (Z.to_int z).

(** [pathlib]'s [/] on the relative components the code uses. *)
Definition path_join (dir name : string) : string :=
  (dir ++ "/" ++ name)%string.

(** [a / b] on integers: true division, raising on a zero divisor. *)
Definition truediv (a b : Z) : result Q :=
  if b =? 0 then Raise (ZeroDivisionError "division by zero")
  else Return (Qmake a 1 / Qmake b 1)%Q.

(** [enumerate(l)], counting from [start]. *)
Fixpoint enumerate_from {A : Type} (start : nat) (l : list A) : list (nat * A) :=
  match l with
  | [] => []
  | x :: l' => (start, x) :: enumerate_from (S start) l'
  end.

Definition enumerate {A : Type} (l : list A) : list (nat * A) := enumerate_from 0 l.

(** [max(l, key=...)]: the first element whose key is not exceeded. *)
Fixpoint max_from {A : Type} (key : A -> Z) (best : A) (l : list A) : A :=
  match l with
  | [] => best
  | x :: l' => if key x >? key best then max_from key x l' else max_from key best l'
  end.

Definition py_max {A : Type} (key : A -> Z) (l : list A) : result A :=
  match l with
  | [] => Raise (ValueError "max() arg is an empty sequence")
  | x :: l' => Return (max_from key x l')
  end.

(** ** Rasters *)

Definition raster : Type := list (list Z).

(** [mask_image.shape] *)
Definition shape (mask_image : raster) : Z * Z :=
  (Z.of_nat (length mask_image), Z.of_nat (length (hd [] mask_image))).

(** [l[lo:hi]] for [0 <= lo] and [0 <= hi]. *)
Definition slice {A : Type} (lo hi : Z) (l : list A) : list A :=
  firstn (Z.to_nat (hi - lo)) (skipn (Z.to_nat lo) l).

(** [mask_image[r0:r1, c0:c1]] *)
Definition crop (r0 r1 c0 c1 : Z) (mask_image : raster) : raster :=
  map (slice c0 c1) (slice r0 r1 mask_image).

Definition count_nonzero_row (row : list Z) : Z :=
  Z.of_nat (length (filter (fun v => negb (v =? 0)) row)).

(** [np.count_nonzero] of a two-dimensional array. *)
Definition count_nonzero (a : raster) : Z :=
  fold_right (fun row n => count_nonzero_row row + n) 0 a.

(** [mask_image[y, x]] for indices already checked to be in range. *)
Definition pixel (mask_image : raster) (y x : Z) : Z :=
  nth (Z.to_nat x) (nth (Z.to_nat y) mask_image []) 0.

(** ** Data of the pipeline *)

(** One proposal of the segmenter: its boolean raster and its pixel area
    (the bounding box and the two quality scores are only written to the
    metadata file). *)
Record mask_data : Type := {
  segmentation : list (list bool);
  area : Z
}.

(** The dictionary returned by [find_matching_face]. *)
Record face_bbox : Type := {
  bb_top : Z;
  bb_right : Z;
  bb_bottom : Z;
  bb_left : Z;
  bb_distance : Q
}.

(** An entry of [overlapping_masks]. *)
Record overlap_entry : Type := {
  index : nat;
  entry_area : Z;
  overlap_pixels : Z;
  overlap_percentage : Q
}.

(** A decoded RGB image: rows of (r, g, b) pixels. *)
Definition image : Type := list (list (Z * Z * Z)).

(** A face location as the face library gives it: (top, right, bottom, left). *)
Definition location : Type := (Z * Z * Z * Z)%type.

(** ** The file system *)

Inductive file : Type :=
| GrayPng (r : raster)
| RgbImage (im : image)
| TextFile
| Damaged.

Definition filesystem : Type := list (string * file).

Fixpoint lookup (fs : filesystem) (path : string) : option file :=
  match fs with
  | [] => None
  | (p, f) :: fs' => if String.eqb p path then Some f else lookup fs' path
  end.

(** [cv2.imread(path, cv2.IMREAD_GRAYSCALE)]: [None] when the file is
    missing or is not a readable image. *)
Definition cv2_imread (fs : filesystem) (path : string) : option raster :=
  match lookup fs path with
  | Some (GrayPng r) => Some r
  | _ => None
  end.

Definition MASK_DIR : string := "/app/masks".
Definition OUTPUT_DIR : string := "/app/outputs".

Definition mask_path (session_id : string) (i : nat) : string :=
  path_join (path_join MASK_DIR session_id) ("mask_" ++ str_of_nat i ++ ".png")%string.

(** ** Step 3: [select_best_mask] *)

Section SelectBestMask.

Variable fs : filesystem.
Variable face : face_bbox.
Variable session_id : string.

Let face_left := bb_left face.
Let face_right := bb_right face.
Let face_top := bb_top face.
Let face_bottom := bb_bottom face.

Definition face_area : Z := (face_right - face_left) * (face_bottom - face_top).

(** The first loop: the candidates with at least 10% overlap. *)
Fixpoint tier1_loop (ms : list (nat * mask_data)) (overlapping_masks : list overlap_entry)
  : result (list overlap_entry) :=
  match ms with
  | [] => Return overlapping_masks
  | (i, md) :: rest =>
      match cv2_imread fs (mask_path session_id i) with
      | None => tier1_loop rest overlapping_masks
      | Some mask_image =>
          let '(h, w) := shape mask_image in
          let crop_top := Z.max 0 face_top in
          let crop_bottom := Z.min h face_bottom in
          let crop_left := Z.max 0 face_left in
          let crop_right := Z.min w face_right in
          if (crop_top >=? crop_bottom) || (crop_left >=? crop_right)
          then tier1_loop rest overlapping_masks
          else
            let face_region := crop crop_top crop_bottom crop_left crop_right mask_image in
            let overlap_pixels := count_nonzero face_region in
            pct <- (if face_area >? 0
                    then q <- truediv overlap_pixels face_area ;; Return (q * 100)%Q
                    else Return 0%Q) ;;
            if Qle_bool 10 pct
            then tier1_loop rest
                   (overlapping_masks ++
                      [{| index := i; entry_area := area md;
                          overlap_pixels := overlap_pixels;
                          overlap_percentage := pct |}])
            else tier1_loop rest overlapping_masks
      end
  end.

Definition face_center_x : Z := (face_left + face_right) / 2.
Definition face_center_y : Z := (face_top + face_bottom) / 2.

(** The fallback loop: the candidates positive at the centre of the face. *)
Fixpoint tier2_loop (ms : list (nat * mask_data)) (overlapping_masks : list overlap_entry)
  : list overlap_entry :=
  match ms with
  | [] => overlapping_masks
  | (i, md) :: rest =>
      match cv2_imread fs (mask_path session_id i) with
      | None => tier2_loop rest overlapping_masks
      | Some mask_image =>
          let '(h, w) := shape mask_image in
          if (0 <=? face_center_y) && (face_center_y <? h)
             && (0 <=? face_center_x) && (face_center_x <? w)
          then
            if pixel mask_image face_center_y face_center_x >? 0
            then tier2_loop rest
                   (overlapping_masks ++
                      [{| index := i; entry_area := area md;
                          overlap_pixels := 1; overlap_percentage := 0 |}])
            else tier2_loop rest overlapping_masks
          else tier2_loop rest overlapping_masks
      end
  end.

Definition no_overlap_error : exn :=
  ValueError "No masks overlap with the detected face".

Definition select_best_mask (masks : list mask_data) : result nat :=
  overlapping_masks <- tier1_loop (enumerate masks) [] ;;
  overlapping_masks <-
    (match overlapping_masks with
     | [] =>
         match tier2_loop (enumerate masks) [] with
         | [] => Raise no_overlap_error
         | found => Return found
         end
     | _ => Return overlapping_masks
     end) ;;
  best <- py_max entry_area overlapping_masks ;;
  Return (index best).

End SelectBestMask.


(** ** What the selection is measured against *)

(** The number of mask-positive pixels inside the face rectangle clamped
    to the raster. *)
Definition overlap_count (face : face_bbox) (r : raster) : Z :=
  let '(h, w) := shape r in
  count_nonzero
    (crop (Z.max 0 (bb_top face)) (Z.min h (bb_bottom face))
          (Z.max 0 (bb_left face)) (Z.min w (bb_right face)) r).

(** The overlap percentage: 100 * overlap count / face area. *)
Definition overlap_pct (face : face_bbox) (r : raster) : Q :=
  (inject_Z (100 * overlap_count face r) / inject_Z (face_area face))%Q.

Definition tier1_okb (fs : filesystem) (face : face_bbox) (session_id : string) (i : nat) : bool :=
  match cv2_imread fs (mask_path session_id i) with
  | Some r => Qle_bool 10 (overlap_pct face r)
  | None => false
  end.

(** Candidate [i] reaches the 10% threshold. *)
Definition qualifies_tier1 (fs : filesystem) (face : face_bbox) (session_id : string) (i : nat) : Prop :=
  exists r, cv2_imread fs (mask_path session_id i) = Some r /\ (10 <= overlap_pct face r)%Q.

Definition center_hitb (fs : filesystem) (face : face_bbox) (session_id : string) (i : nat) : bool :=
  match cv2_imread fs (mask_path session_id i) with
  | Some r =>
      let '(h, w) := shape r in
      (0 <=? face_center_y face) && (face_center_y face <? h)
      && (0 <=? face_center_x face) && (face_center_x face <? w)
      && (pixel r (face_center_y face) (face_center_x face) >? 0)
  | None => false
  end.

(** Candidate [i] is mask-positive at the pixel
    ((left+right)//2, (top+bottom)//2). *)
Definition center_hit (fs : filesystem) (face : face_bbox) (session_id : string) (i : nat) : Prop :=
  exists r, cv2_imread fs (mask_path session_id i) = Some r /\
    0 <= (bb_top face + bb_bottom face) / 2 < fst (shape r) /\
    0 <= (bb_left face + bb_right face) / 2 < snd (shape r) /\
    pixel r ((bb_top face + bb_bottom face) / 2) ((bb_left face + bb_right face) / 2) > 0.

(** [i] is the first candidate of largest area among those satisfying [P]. *)
Definition first_largest (P : nat -> Prop) (masks : list mask_data) (i : nat) : Prop :=
  exists md, nth_error masks i = Some md /\ P i /\
    forall j md', nth_error masks j = Some md' -> P j ->
      area md' <= area md /\ (area md' = area md -> (i <= j)%nat).

Definition ia (e : overlap_entry) : nat * Z := (index e, entry_area e).

(** The mask-positive pixels (row, column) of the face rectangle clamped to
    the raster, taken one coordinate at a time. *)
Definition positive_pixels (face : face_bbox) (r : raster) : list (nat * nat) :=
  let '(h, w) := shape r in
  let crop_top := Z.max 0 (bb_top face) in
  let crop_bottom := Z.min h (bb_bottom face) in
  let crop_left := Z.max 0 (bb_left face) in
  let crop_right := Z.min w (bb_right face) in
  filter (fun yx => negb (pixel r (Z.of_nat (fst yx)) (Z.of_nat (snd yx)) =? 0))
         (list_prod (seq (Z.to_nat crop_top) (Z.to_nat (crop_bottom - crop_top)))
                    (seq (Z.to_nat crop_left) (Z.to_nat (crop_right - crop_left)))).

(** *** The threshold test on doubles

    The code computes [(overlap_pixels / face_area) * 100 >= 10] on IEEE
    doubles. The two definitions below are that test on the primitive
    binary64 floats and on exact rationals; they are compared on every
    face area up to a bound. *)
Definition float_of_Z (z : Z) : PrimFloat.float := PrimFloat.of_uint63 (Uint63.of_Z z).

Definition overlap_test_float (overlap_pixels face_area : Z) : bool :=
  PrimFloat.leb (float_of_Z 10)
    (PrimFloat.mul (PrimFloat.div (float_of_Z overlap_pixels) (float_of_Z face_area))
                   (float_of_Z 100)).

Definition overlap_test_exact (overlap_pixels face_area : Z) : bool :=
  Qle_bool 10 (inject_Z overlap_pixels / inject_Z face_area * 100)%Q.

Definition overlap_tests_agree_upto (n : nat) : bool :=
  forallb (fun a =>
             forallb (fun p => Bool.eqb (overlap_test_float (Z.of_nat p) (Z.of_nat a))
                                        (overlap_test_exact (Z.of_nat p) (Z.of_nat a)))
                     (seq 0 (S a)))
          (seq 1 n).

(** ** The world outside the repository *)

Class Externals : Type := {
  (** a face encoding *)
  Enc : Type;
  (** [sys.executable] *)
  sys_executable : string;
  (** the successive values of [uuid.uuid4()] *)
  uuid4 : nat -> string;
  (** whether a write to the path goes through *)
  disk_ok : string -> bool;
  (** [Image.open(io.BytesIO(content))], converted to RGB *)
  Image_open_bytes : string -> result image;
  (** loading the SAM checkpoint on the accelerator *)
  load_sam : result unit;
  (** [SamAutomaticMaskGenerator.generate] *)
  generate : image -> list mask_data;
  (** [face_recognition.face_locations(img, model="cnn")] *)
  face_locations : image -> list location;
  (** [face_recognition.face_encodings(img, locations)] *)
  face_encodings : image -> list location -> list Enc;
  (** [face_recognition.face_distance(encodings, encoding)] *)
  face_distance : list Enc -> Enc -> list Q;
  (** [subprocess.run(args, ...)]: the return code and the files it leaves *)
  subprocess_run : list string -> filesystem -> Z * filesystem
}.

(** ** State and exceptions together *)

Record world : Type := {
  files : filesystem;
  models_loaded : bool;
  uuids_drawn : nat
}.

Definition io (A : Type) : Type := world -> world * result A.

Definition io_ret {A : Type} (a : A) : io A := fun w => (w, Return a).

Definition io_raise {A : Type} (e : exn) : io A := fun w => (w, Raise e).

Definition io_bind {A B : Type} (m : io A) (k : A -> io B) : io B :=
  fun w =>
    match m w with
    | (w', Return a) => k a w'
    | (w', Raise e) => (w', Raise e)
    end.

Notation "x <~ m ;; k" := (io_bind m (fun x => k))
  (at level 61, m at next level, right associativity).

(** A computation that only raises or returns. *)
Definition lift {A : Type} (r : result A) : io A := fun w => (w, r).

(** [try: m  except Exception as e: handler e] *)
Definition try_except {A : Type} (m : io A) (handler : exn -> io A) : io A :=
  fun w =>
    match m w with
    | (w', Return a) => (w', Return a)
    | (w', Raise e) => handler e w'
    end.

Definition get_files : io filesystem := fun w => (w, Return (files w)).

Definition set_files (fs : filesystem) (w : world) : world :=
  {| files := fs; models_loaded := models_loaded w; uuids_drawn := uuids_drawn w |}.

Definition write_file (path : string) (f : file) (w : world) : world :=
  set_files ((path, f) :: files w) w.

(** [path.exists()] *)
Definition path_exists (fs : filesystem) (path : string) : bool :=
  match lookup fs path with
  | Some _ => true
  | None => false
  end.

(** [shutil.rmtree(dir, ignore_errors=True)] *)
Definition rmtree (dir : string) : io unit :=
  fun w =>
    (set_files (filter (fun pf => negb (String.prefix (dir ++ "/")%string (fst pf))) (files w)) w,
     Return tt).

(** [Image.open(path)], [verify()], reopened and converted to RGB. *)
Definition Image_open (fs : filesystem) (path : string) : result image :=
  match lookup fs path with
  | Some (RgbImage im) => Return im
  | Some (GrayPng r) => Return (map (map (fun v => (v, v, v))) r)
  | Some _ => Raise (UnidentifiedImageError ("cannot identify image file " ++ path))
  | None => Raise (FileNotFoundError ("No such file or directory: " ++ path))
  end.

Section Pipeline.

Context {X : Externals}.

(** [uuid.uuid4()] *)
Definition draw_uuid : io string :=
  fun w =>
    ({| files := files w; models_loaded := models_loaded w;
        uuids_drawn := S (uuids_drawn w) |},
     Return (uuid4 (uuids_drawn w))).

(** [cv2.imwrite(path, array)]: reports a failed write as [False]. *)
Definition cv2_imwrite (path : string) (r : raster) : io bool :=
  fun w =>
    if disk_ok path then (write_file path (GrayPng r) w, Return true)
    else (w, Return false).

(** [image.save(path)]: raises on a failed write. *)
Definition Image_save (path : string) (im : image) : io unit :=
  fun w =>
    if disk_ok path then (write_file path (RgbImage im) w, Return tt)
    else (w, Raise (OSError ("cannot write " ++ path))).

(** [open(path, "w")] and the writes to it. *)
Definition write_text (path : string) : io unit :=
  fun w =>
    if disk_ok path then (write_file path TextFile w, Return tt)
    else (w, Raise (OSError ("cannot write " ++ path))).

Definition initialize_models : io unit :=
  fun w =>
    if models_loaded w then (w, Return tt)
    else
      match load_sam with
      | Return _ =>
          ({| files := files w; models_loaded := true; uuids_drawn := uuids_drawn w |},
           Return tt)
      | Raise e => (w, Raise e)
      end.

(** *** Step 1: [segment_image] *)

(** [mask_data['segmentation'].astype(np.uint8) * 255] *)
Definition mask_uint8 (seg : list (list bool)) : raster :=
  map (map (fun b : bool => if b then 255 else 0)) seg.

Fixpoint save_masks (session_id : string) (ms : list (nat * mask_data)) : io unit :=
  match ms with
  | [] => io_ret tt
  | (i, md) :: rest =>
      _ <~ cv2_imwrite (mask_path session_id i) (mask_uint8 (segmentation md)) ;;
      save_masks session_id rest
  end.

Definition segment_image (im : image) (session_id : string) : io (list mask_data) :=
  _ <~ initialize_models ;;
  let masks := generate im in
  _ <~ save_masks session_id (enumerate masks) ;;
  _ <~ write_text (path_join (path_join MASK_DIR session_id) "mask_metadata.txt") ;;
  io_ret masks.

(** *** Step 2: [find_matching_face] *)

Definition threshold : Q := 6 # 10.

(** [(bottom - top) * (right - left)] *)
Definition bbox_area (loc : location) : Z :=
  let '(top, rgt, bottom, lft) := loc in (bottom - top) * (rgt - lft).

(** The order of Python on the tuples [(area, idx)]. *)
Definition tuple_ltb (a b : Z * nat) : bool :=
  (fst a <? fst b) || ((fst a =? fst b) && (snd a <? snd b)%nat).

Fixpoint insert_reverse (x : Z * nat) (l : list (Z * nat)) : list (Z * nat) :=
  match l with
  | [] => [x]
  | y :: l' => if tuple_ltb x y then y :: insert_reverse x l' else x :: y :: l'
  end.

(** [l.sort(reverse=True)] *)
Definition sort_reverse (l : list (Z * nat)) : list (Z * nat) :=
  fold_right insert_reverse [] l.

(** [l[i]] *)
Definition getitem {A : Type} (l : list A) (i : nat) : result A :=
  match nth_error l i with
  | Some x => Return x
  | None => Raise (IndexError "list index out of range")
  end.

(** The query locations that are kept: the largest face if several. *)
Definition largest_query_location (query_locations : list location)
  : result (list location) :=
  if (1 <? List.length query_locations)%nat
  then
    let face_areas :=
      sort_reverse (map (fun p => (bbox_area (snd p), fst p)) (enumerate query_locations)) in
    first <- getitem face_areas 0 ;;
    let largest_idx := snd first in
    loc <- getitem query_locations largest_idx ;;
    Return [loc]
  else Return query_locations.

(** The loop over [zip(target_locations, matches, distances)]. *)
Fixpoint first_match (target_locations : list location) (matches : list bool)
         (distances : list Q) : option face_bbox :=
  match target_locations, matches, distances with
  | (top, rgt, bottom, lft) :: locs', is_match :: matches', dist :: distances' =>
      if is_match
      then Some {| bb_top := top; bb_right := rgt; bb_bottom := bottom;
                   bb_left := lft; bb_distance := dist |}
      else first_match locs' matches' distances'
  | _, _, _ => None
  end.

Definition find_matching_face (target_image query_image : image)
  : result (option face_bbox) :=
  let target_locations := face_locations target_image in
  let target_encodings := face_encodings target_image target_locations in
  let query_locations := face_locations query_image in
  if (List.length query_locations =? 0)%nat
  then Raise (ValueError "No faces found in query image")
  else
    query_locations <- largest_query_location query_locations ;;
    query_encoding <- getitem (face_encodings query_image query_locations) 0 ;;
    let distances := face_distance target_encodings query_encoding in
    let matches := map (fun d => Qle_bool d threshold) distances in
    Return (first_match target_locations matches distances).

(** *** Step 4: [inpaint_with_lama] *)

Definition LAMA_DIR : string := "/lama".
Definition LAMA_MODEL_DIR : string := path_join LAMA_DIR "big-lama".

Definition work_dir_of (session_id : string) : string :=
  path_join OUTPUT_DIR (session_id ++ "_lama_in").
Definition out_dir_of (session_id : string) : string :=
  path_join OUTPUT_DIR (session_id ++ "_lama_out").

Definition base_name : string := "image".

Definition possible_outputs (out_dir : string) : list string :=
  [ path_join out_dir (base_name ++ "_mask001.png")%string;
    path_join out_dir (base_name ++ ".png")%string ].

(** The loop that keeps the first path that exists. *)
Fixpoint first_existing (fs : filesystem) (paths : list string) : option string :=
  match paths with
  | [] => None
  | path :: rest => if path_exists fs path then Some path else first_existing fs rest
  end.

Definition lama_args (work_dir out_dir device : string) : list string :=
  [ sys_executable;
    path_join (path_join LAMA_DIR "bin") "predict.py";
    ("model.path=" ++ LAMA_MODEL_DIR)%string;
    ("indir=" ++ work_dir)%string;
    ("outdir=" ++ out_dir)%string;
    ("device=" ++ device)%string ].

(** [subprocess.run]: the process acts on the files and returns its code. *)
Definition run_process (args : list string) : io Z :=
  fun w => let '(returncode, fs') := subprocess_run args (files w) in
           (set_files fs' w, Return returncode).

(** The mask is the single-channel 8-bit image the endpoint passes. *)
Definition inpaint_with_lama (im : image) (mask : raster) (session_id : string)
           (device : string) : io image :=
  let work_dir := work_dir_of session_id in
  let out_dir := out_dir_of session_id in
  _ <~ Image_save (path_join work_dir (base_name ++ ".png")) im ;;
  success <~ cv2_imwrite (path_join work_dir (base_name ++ "_mask001.png")) mask ;;
  if negb success then io_raise (RuntimeError "Failed to write mask file")
  else
    returncode <~ run_process (lama_args work_dir out_dir device) ;;
    if negb (returncode =? 0)
    then io_raise (RuntimeError
                     ("LaMa prediction failed with return code " ++ str_of_Z returncode))
    else
      fs <~ get_files ;;
      match first_existing fs (possible_outputs out_dir) with
      | None => io_raise (FileNotFoundError ("LaMa output not found in " ++ out_dir))
      | Some result_path =>
          result <~ lift (Image_open fs result_path) ;;
          _ <~ rmtree work_dir ;;
          _ <~ rmtree out_dir ;;
          io_ret result
      end.

(** *** The endpoint [process_images] *)

Record UploadFile : Type := {
  filename : string;
  content : string
}.

(** An element of [results]: the dictionary with the key ["url"] or the
    one with the key ["error"]. *)
Inductive result_entry : Type :=
| Processed (original output url : string)
| Failed (original error : string).

Record JSONResponse : Type := {
  success : bool;
  session_id : string;
  results : list result_entry;
  processed : nat;
  failed : nat
}.

Definition has_url (r : result_entry) : bool :=
  match r with Processed _ _ _ => true | Failed _ _ => false end.

Definition has_error (r : result_entry) : bool :=
  match r with Processed _ _ _ => false | Failed _ _ => true end.

(** The body of the inner [try]. A file stored by [Image_save] is a
  non-empty image here, so the check of the file size has no counterpart;
  the commits of the volumes have no effect on the files. *)
Definition process_target (ref_image : image) (session_id : string) (idx : nat)
           (target_file : UploadFile) : io result_entry :=
  target_image <~ lift (Image_open_bytes (content target_file)) ;;
  let sid := (session_id ++ "_" ++ str_of_nat idx)%string in
  masks <~ segment_image target_image sid ;;
  face <~ lift (find_matching_face target_image ref_image) ;;
  match face with
  | None => io_raise (ValueError "No matching face found")
  | Some face =>
      fs <~ get_files ;;
      mask_idx <~ lift (select_best_mask fs face sid masks) ;;
      match cv2_imread fs (mask_path sid mask_idx) with
      | None => io_raise (ValueError ("Could not load mask from " ++ mask_path sid mask_idx))
      | Some mask_image =>
          result_image <~ inpaint_with_lama target_image mask_image sid "cuda" ;;
          u <~ draw_uuid ;;
          let output_filename := (sid ++ "_" ++ u ++ ".jpg")%string in
          let output_path := path_join OUTPUT_DIR output_filename in
          _ <~ Image_save output_path result_image ;;
          fs <~ get_files ;;
          if negb (path_exists fs output_path)
          then io_raise (RuntimeError ("Failed to save output file: " ++ output_path))
          else
            _ <~ try_except (_ <~ lift (Image_open fs output_path) ;; io_ret tt)
                   (fun e => io_raise (RuntimeError ("Saved image is corrupted: " ++ str e))) ;;
            io_ret (Processed (filename target_file) output_filename
                              ("/outputs/" ++ output_filename))
      end
  end.

(** The loop over [enumerate(targets)] with its [try]/[except]. *)
Fixpoint process_loop (ref_image : image) (session_id : string)
         (ts : list (nat * UploadFile)) (results : list result_entry)
  : io (list result_entry) :=
  match ts with
  | [] => io_ret results
  | (idx, target_file) :: rest =>
      entry <~ try_except (process_target ref_image session_id idx target_file)
                 (fun e => io_ret (Failed (filename target_file) (str e))) ;;
      process_loop ref_image session_id rest (results ++ [entry])
  end.

Definition too_many_targets : exn :=
  HTTPException 400 "Maximum 1 target image allowed".

Definition process_images (reference : UploadFile) (targets : list UploadFile)
           (session_id : option string) : io JSONResponse :=
  if (1 <? List.length targets)%nat then io_raise too_many_targets
  else
    session_id <~ (match session_id with
                   | None => draw_uuid
                   | Some s => io_ret s
                   end) ;;
    try_except
      (_ <~ initialize_models ;;
       ref_image <~ lift (Image_open_bytes (content reference)) ;;
       results <~ process_loop ref_image session_id (enumerate targets) [] ;;
       io_ret {| success := true;
                 session_id := session_id;
                 results := results;
                 processed := List.length (filter has_url results);
                 failed := List.length (filter has_error results) |})
      (fun e => io_raise (HTTPException 500 ("Processing failed: " ++ str e))).

End Pipeline.

(** ** What is recorded for an image, and which reference face is kept *)

(** The entry the loop appends for a target whose pipeline ended in [r]. *)
Definition entry_of (target_file : UploadFile) (r : result result_entry) : result_entry :=
  match r with
  | Return entry => entry
  | Raise e => Failed (filename target_file) (str e)
  end.

Definition entry_original (r : result_entry) : string :=
  match r with
  | Processed original _ _ => original
  | Failed original _ => original
  end.

(** The kept query location is a face of largest area and, among the faces
    of that area, the one detected first. *)
Definition picks_earliest_largest (query_locations kept : list location) : Prop :=
  exists i loc, kept = [loc] /\ nth_error query_locations i = Some loc /\
    forall j loc', nth_error query_locations j = Some loc' ->
      bbox_area loc' <= bbox_area loc /\ (bbox_area loc' = bbox_area loc -> (i <= j)%nat).

(** The kept query location is a face of largest area and, among the faces
    of that area, the one detected last. *)
Definition picks_latest_largest (query_locations kept : list location) : Prop :=
  exists i loc, kept = [loc] /\ nth_error query_locations i = Some loc /\
    forall j loc', nth_error query_locations j = Some loc' ->
      bbox_area loc' <= bbox_area loc /\ (bbox_area loc' = bbox_area loc -> (j <= i)%nat).

Definition face_of (loc : location) (dist : Q) : face_bbox :=
  let '(top, rgt, bottom, lft) := loc in
  {| bb_top := top; bb_right := rgt; bb_bottom := bottom; bb_left := lft;
     bb_distance := dist |}.

(** ** A small instance of the externals, for running the pipeline *)

Module Sample.

(** A sample image is a list of faces: the row [(top, right, bottom);
    (left, identity, 0)] stands for a face. *)
Definition face_row (loc : location) (identity : Z) : list (Z * Z * Z) :=
  let '(top, rgt, bottom, lft) := loc in [(top, rgt, bottom); (lft, identity, 0)].

Definition row_location (row : list (Z * Z * Z)) : location :=
  match row with
  | (top, rgt, bottom) :: (lft, _, _) :: _ => (top, rgt, bottom, lft)
  | _ => (0, 0, 0, 0)
  end.

Definition row_identity (row : list (Z * Z * Z)) : Z :=
  match row with
  | _ :: (_, identity, _) :: _ => identity
  | _ => 0
  end.

Definition location_eqb (a b : location) : bool :=
  let '(t1, r1, b1, l1) := a in
  let '(t2, r2, b2, l2) := b in
  (t1 =? t2) && (r1 =? r2) && (b1 =? b2) && (l1 =? l2).

Definition encoding_at (im : image) (loc : location) : Z :=
  match find (fun row => location_eqb (row_location row) loc) im with
  | Some row => row_identity row
  | None => 0
  end.

Definition reference_photo : image := [face_row (0, 4, 4, 0) 50].
Definition two_reference_faces : image :=
  [face_row (0, 10, 10, 0) 10; face_row (0, 30, 10, 20) 50].
Definition photo_a : image := [face_row (0, 4, 4, 0) 52].
Definition photo_stranger : image := [face_row (0, 4, 4, 0) 90].
Definition photo_far_face : image := [face_row (10, 14, 14, 10) 50].
Definition photo_crowd : image :=
  [face_row (0, 2, 2, 0) 90; face_row (0, 4, 2, 2) 55; face_row (2, 4, 4, 2) 51].
Definition photo_empty : image := [].

Definition decode (bytes : string) : result image :=
  if String.eqb bytes "ref" then Return reference_photo
  else if String.eqb bytes "a" then Return photo_a
  else if String.eqb bytes "stranger" then Return photo_stranger
  else if String.eqb bytes "far" then Return photo_far_face
  else Raise (UnidentifiedImageError "cannot identify image file").

Definition full_mask : mask_data :=
  {| segmentation := repeat (repeat true 4%nat) 4%nat; area := 16 |}.

(** The sample subprocess leaves the mask-suffixed file in the directory
    named by its fifth argument. *)
Definition predict (args : list string) (fs : filesystem) : Z * filesystem :=
  let outdir_arg := nth 4 args "" in
  let out_dir := substring 7 (String.length outdir_arg - 7) outdir_arg in
  (0, (path_join out_dir "image_mask001.png", RgbImage [[(1, 2, 3)]]) :: fs).

Definition externals : Externals :=
  {| Enc := Z;
     sys_executable := "python";
     uuid4 := fun n => ("uuid" ++ str_of_nat n)%string;
     disk_ok := fun _ => true;
     Image_open_bytes := decode;
     load_sam := Return tt;
     generate := fun _ => [full_mask];
     face_locations := map row_location;
     face_encodings := fun im locs => map (encoding_at im) locs;
     face_distance := fun encs e => map (fun x => Qmake (Z.abs (x - e)) 10) encs;
     subprocess_run := predict |}.

Definition empty_world : world :=
  {| files := []; models_loaded := false; uuids_drawn := 0 |}.

Definition upload (name bytes : string) : UploadFile :=
  {| filename := name; content := bytes |}.

(** Three candidates over a 10 x 10 face: 15, 12 and 5 of its 100 pixels. *)
Definition hits_row (k : nat) : list Z :=
  repeat 0 5%nat ++ repeat 255 k ++ repeat 0 (15 - k)%nat.

Definition raster_with (n : nat) : raster :=
  [hits_row (Nat.min n 10); hits_row (n - 10)%nat].

Definition three_masks : list mask_data :=
  [ {| segmentation := []; area := 500 |};
    {| segmentation := []; area := 1000 |};
    {| segmentation := []; area := 2000 |} ].

Definition three_files : filesystem :=
  [ (mask_path "s" 0, GrayPng (raster_with 15));
    (mask_path "s" 1, GrayPng (raster_with 12));
    (mask_path "s" 2, GrayPng (raster_with 5)) ].

(** Candidates that miss the 10% threshold; the first two are positive at
    the pixel (row 5, column 10). *)
Definition dot_raster : raster :=
  repeat (repeat 0 20%nat) 5%nat ++ [repeat 0 10%nat ++ [255] ++ repeat 0 9%nat].

Definition blank_raster : raster := repeat (repeat 0 20%nat) 6%nat.

Definition center_masks : list mask_data :=
  [ {| segmentation := []; area := 300 |};
    {| segmentation := []; area := 700 |};
    {| segmentation := []; area := 900 |} ].

Definition center_files : filesystem :=
  [ (mask_path "c" 0, GrayPng dot_raster);
    (mask_path "c" 1, GrayPng dot_raster);
    (mask_path "c" 2, GrayPng blank_raster) ].

(** A face box of zero width. *)
Definition line_face : face_bbox :=
  {| bb_top := 0; bb_right := 10; bb_bottom := 10; bb_left := 10; bb_distance := 0 |}.

(** A face box away from every raster above. *)
Definition far_face : face_bbox :=
  {| bb_top := 40; bb_right := 60; bb_bottom := 60; bb_left := 40; bb_distance := 0 |}.

Definition face_10 : face_bbox :=
  {| bb_top := 0; bb_right := 15; bb_bottom := 10; bb_left := 5; bb_distance := 0 |}.

End Sample.

From Stdlib Require DecimalNat.

(** ** Further definitions for the properties of the stages *)

(** [segmentation[y, x]], false outside the array. *)
Definition segmentation_at (seg : list (list bool)) (y x : nat) : bool :=
  nth x (nth y seg []) false.

(** The cells of a segmentation that are true inside the face rectangle
    clamped to the array. *)
Definition true_cells (face : face_bbox) (seg : list (list bool)) : list (nat * nat) :=
  let h := Z.of_nat (List.length seg) in
  let w := Z.of_nat (List.length (hd [] seg)) in
  let crop_top := Z.max 0 (bb_top face) in
  let crop_bottom := Z.min h (bb_bottom face) in
  let crop_left := Z.max 0 (bb_left face) in
  let crop_right := Z.min w (bb_right face) in
  filter (fun yx => segmentation_at seg (fst yx) (snd yx))
         (list_prod (seq (Z.to_nat crop_top) (Z.to_nat (crop_bottom - crop_top)))
                    (seq (Z.to_nat crop_left) (Z.to_nat (crop_right - crop_left)))).

(** The endpoint [health]: the status and the flag [models_loaded]. *)
Definition health (w : world) : string * bool :=
  (if models_loaded w then "healthy" else "initializing", models_loaded w).

(** A computation that leaves the models loaded when they were. *)
Definition keeps_loaded {A : Type} (m : io A) : Prop :=
  forall w, models_loaded w = true -> models_loaded (fst (m w)) = true.

(** The path lies under the directory. *)
Definition under (dir path : string) : bool := String.prefix (dir ++ "/")%string path.

(** [startup_event]: the models are warmed up and a failure is only
    printed. *)
Definition startup_event {X : Externals} : io unit :=
  try_except initialize_models (fun _ => io_ret tt).

(** ** Further sample data *)

Module Sample2.

(** The sample externals with a decoder that also knows a photo without
  any face. *)
Definition decode (bytes : string) : result image :=
if String.eqb bytes "blank" then Return Sample.photo_empty else Sample.decode bytes.

Definition externals : Externals :=
{| Enc := Z;
   sys_executable := "python";
   uuid4 := fun n => ("uuid" ++ str_of_nat n)%string;
   disk_ok := fun _ => true;
   Image_open_bytes := decode;
   load_sam := Return tt;
   generate := fun _ => [Sample.full_mask];
   face_locations := map Sample.row_location;
   face_encodings := fun im locs => map (Sample.encoding_at im) locs;
   face_distance := fun encs e => map (fun x => Qmake (Z.abs (x - e)) 10) encs;
   subprocess_run := Sample.predict |}.

(** The files of [Sample.three_files] next to a mask of another session. *)
Definition files_with_other_session : filesystem :=
(mask_path "t" 0, GrayPng Sample.dot_raster) :: Sample.three_files.

Definition loaded_world : world :=
{| files := []; models_loaded := true; uuids_drawn := 0 |}.

(** The face of [Sample.photo_a]. *)
Definition face_a : face_bbox :=
{| bb_top := 0; bb_right := 4; bb_bottom := 4; bb_left := 0; bb_distance := 2 # 10 |}.

End Sample2.
(** ** Lemmas on the Python primitives *)

Lemma enumerate_from_In {A : Type} (l : list A) :
  forall s i x, In (i, x) (enumerate_from s l) <->
                (s <= i)%nat /\ nth_error l (i - s) = Some x.
Proof.
  induction l as [|y l IH]; intros s i x; simpl.
  - split; [tauto|]. intros [_ H]. destruct (i - s)%nat; discriminate.
  - rewrite IH. split.
    + intros [H | [Hle H]].
      * inversion H; subst. rewrite Nat.sub_diag. split; [lia | reflexivity].
      * split; [lia|]. replace (i - s)%nat with (S (i - S s)) by lia. exact H.
    + intros [Hle H]. destruct (Nat.eq_dec s i) as [-> | Hne].
      * rewrite Nat.sub_diag in H. simpl in H. left. congruence.
      * right. split; [lia|].
        replace (i - s)%nat with (S (i - S s)) in H by lia. exact H.
Qed.

Lemma enumerate_In {A : Type} (l : list A) i x :
  In (i, x) (enumerate l) <-> nth_error l i = Some x.
Proof.
  unfold enumerate. rewrite enumerate_from_In, Nat.sub_0_r.
  split; [tauto | split; [lia | assumption]].
Qed.

(** In a filtered enumeration the indices still increase. *)
Lemma filter_enumerate_from_split {A : Type} (f : nat * A -> bool) (l : list A) :
  forall s c1 p c2,
    filter f (enumerate_from s l) = c1 ++ p :: c2 ->
    (s <= fst p)%nat /\ Forall (fun q => (fst p < fst q)%nat) c2.
Proof.
  induction l as [|x l IH]; intros s c1 p c2 H; simpl in H.
  - destruct c1; discriminate.
  - destruct (f (s, x)).
    + destruct c1 as [|c c1]; simpl in H.
      * inversion H; subst. simpl. split; [lia|].
        apply Forall_forall. intros [j y] Hj.
        apply filter_In in Hj. destruct Hj as [Hj _].
        apply enumerate_from_In in Hj. simpl. lia.
      * inversion H; subst.
        destruct (IH _ _ _ _ H2) as [Hs Hall]. split; [lia | exact Hall].
    + destruct (IH _ _ _ _ H) as [Hs Hall]. split; [lia | exact Hall].
Qed.

(** [max] returns the first element carrying the largest key. *)
Lemma max_from_split {A : Type} (key : A -> Z) (l : list A) :
  forall best, exists l1 l2,
    best :: l = l1 ++ max_from key best l :: l2 /\
    Forall (fun x => key x < key (max_from key best l)) l1 /\
    Forall (fun x => key x <= key (max_from key best l)) l2.
Proof.
  induction l as [|x l IH]; intros best; simpl.
  - exists [], []. repeat split; constructor.
  - destruct (key x >? key best) eqn:Hgt.
    + destruct (IH x) as (l1 & l2 & Heq & H1 & H2).
      exists (best :: l1), l2. rewrite Heq. repeat split; try assumption.
      constructor; [|assumption].
      assert (Hx : key x <= key (max_from key x l)).
      { assert (Hin : In x (l1 ++ max_from key x l :: l2))
          by (rewrite <- Heq; left; reflexivity).
        apply in_app_or in Hin. destruct Hin as [Hin | [Hin | Hin]].
        - rewrite Forall_forall in H1. specialize (H1 _ Hin). lia.
        - rewrite Hin. lia.
        - rewrite Forall_forall in H2. exact (H2 _ Hin). }
      lia.
    + destruct (IH best) as (l1 & l2 & Heq & H1 & H2).
      destruct l1 as [|b l1]; simpl in Heq.
      * injection Heq as Hb Hl.
        exists [], (x :: l2). simpl. split; [congruence|].
        split; [constructor|].
        constructor; [rewrite <- Hb; lia | assumption].
      * injection Heq as Hb Hl. subst b.
        exists (best :: x :: l1), l2. simpl. split; [congruence|].
        split; [|assumption].
        inversion H1; subst.
        constructor; [assumption|]. constructor; [lia | assumption].
Qed.

(** ** Lemmas on the selection *)

Lemma pct_agree c f : f > 0 ->
  ((c # 1) / (f # 1) * 100 == inject_Z (100 * c) / inject_Z f)%Q.
Proof.
  intros Hf. rewrite inject_Z_mult. change (c # 1)%Q with (inject_Z c).
  change (f # 1)%Q with (inject_Z f). change (inject_Z 100) with 100%Q.
  field. unfold Qeq; simpl; lia.
Qed.

Lemma count_nonzero_row_nonneg row : 0 <= count_nonzero_row row.
Proof. unfold count_nonzero_row. lia. Qed.

Lemma count_nonzero_nonneg a : 0 <= count_nonzero a.
Proof.
  induction a as [|row a IH]; simpl; [lia|].
  pose proof (count_nonzero_row_nonneg row). lia.
Qed.

Lemma slice_empty {A : Type} lo hi (l : list A) : hi <= lo -> slice lo hi l = [].
Proof.
  intros H. unfold slice. replace (Z.to_nat (hi - lo)) with 0%nat by lia. reflexivity.
Qed.

Lemma count_nonzero_crop_empty r0 r1 c0 c1 r :
  r1 <= r0 \/ c1 <= c0 -> count_nonzero (crop r0 r1 c0 c1 r) = 0.
Proof.
  unfold crop. intros [H | H].
  - rewrite slice_empty by assumption. reflexivity.
  - induction (slice r0 r1 r) as [|row a IH]; simpl; [reflexivity|].
    rewrite IH, slice_empty by assumption. reflexivity.
Qed.

Lemma overlap_pct_empty face r :
  overlap_count face r = 0 -> Qle_bool 10 (overlap_pct face r) = false.
Proof.
  intros H. unfold overlap_pct. rewrite H.
  destruct (Qle_bool 10 (inject_Z (100 * 0) / inject_Z (face_area face))) eqn:E; [|reflexivity].
  apply Qle_bool_iff in E. exfalso.
  assert (Hz : (inject_Z (100 * 0) / inject_Z (face_area face) == 0)%Q).
  { simpl. unfold Qdiv. apply Qmult_0_l. }
  rewrite Hz in E. unfold Qle in E; simpl in E; lia.
Qed.

Lemma tier1_loop_spec fs face sid ms :
  forall acc, exists l,
    tier1_loop fs face sid ms acc = Return (acc ++ l) /\
    map ia l = map (fun p => (fst p, area (snd p)))
                   (filter (fun p => tier1_okb fs face sid (fst p)) ms).
Proof.
  induction ms as [|[i md] ms IH]; intros acc.
  - exists []. simpl. rewrite app_nil_r. split; reflexivity.
  - cbn [tier1_loop filter fst snd]. unfold tier1_okb at 1.
    destruct (cv2_imread fs (mask_path sid i)) as [r|] eqn:Hr; [|apply IH].
    unfold overlap_pct, overlap_count.
    destruct (shape r) as [h w] eqn:Hs.
    set (ct := Z.max 0 (bb_top face)). set (cb := Z.min h (bb_bottom face)).
    set (cl := Z.max 0 (bb_left face)). set (cr := Z.min w (bb_right face)).
    destruct ((ct >=? cb) || (cl >=? cr)) eqn:Hempty.
    + rewrite count_nonzero_crop_empty by lia.
      replace (Qle_bool 10 (inject_Z (100 * 0) / inject_Z (face_area face))) with false.
      * apply IH.
      * symmetry. destruct (Qle_bool 10 (inject_Z (100 * 0) / inject_Z (face_area face))) eqn:E; [|reflexivity].
        apply Qle_bool_iff in E. exfalso.
        assert (Hz : (inject_Z (100 * 0) / inject_Z (face_area face) == 0)%Q)
          by (simpl; unfold Qdiv; apply Qmult_0_l).
        rewrite Hz in E. unfold Qle in E; simpl in E; lia.
    + assert (Hfa : face_area face > 0).
      { unfold face_area. subst ct cb cl cr. nia. }
      replace (face_area face >? 0) with true by lia.
      unfold truediv. replace (face_area face =? 0) with false by lia.
      cbn [bind].
      set (c := count_nonzero (crop ct cb cl cr r)).
      assert (Hq : Qle_bool 10 ((c # 1) / (face_area face # 1) * 100)
                   = Qle_bool 10 (inject_Z (100 * c) / inject_Z (face_area face))).
      { apply eq_true_iff_eq. rewrite !Qle_bool_iff. rewrite pct_agree by assumption. tauto. }
      rewrite Hq.
      destruct (Qle_bool 10 (inject_Z (100 * c) / inject_Z (face_area face))).
      * match goal with |- context [tier1_loop _ _ _ ms (acc ++ [?e])] =>
          destruct (IH (acc ++ [e])) as (l & Hl & Hm); exists (e :: l) end.
        split.
        -- rewrite Hl, <- app_assoc. reflexivity.
        -- simpl. rewrite Hm. reflexivity.
      * apply IH.
Qed.

Lemma tier2_loop_spec fs face sid ms :
  forall acc, exists l,
    tier2_loop fs face sid ms acc = acc ++ l /\
    map ia l = map (fun p => (fst p, area (snd p)))
                   (filter (fun p => center_hitb fs face sid (fst p)) ms).
Proof.
  induction ms as [|[i md] ms IH]; intros acc.
  - exists []. simpl. rewrite app_nil_r. split; reflexivity.
  - cbn [tier2_loop filter fst snd]. unfold center_hitb at 1.
    destruct (cv2_imread fs (mask_path sid i)) as [r|] eqn:Hr; [|apply IH].
    destruct (shape r) as [h w] eqn:Hs.
    destruct ((0 <=? face_center_y face) && (face_center_y face <? h)
              && (0 <=? face_center_x face) && (face_center_x face <? w)); cbn [andb];
      [|apply IH].
    destruct (pixel r (face_center_y face) (face_center_x face) >? 0); [|apply IH].
    match goal with |- context [tier2_loop _ _ _ ms (acc ++ [?e])] =>
      destruct (IH (acc ++ [e])) as (l & Hl & Hm); exists (e :: l) end.
    split.
    + rewrite Hl, <- app_assoc. reflexivity.
    + simpl. rewrite Hm. reflexivity.
Qed.

(** Selecting by largest area from the kept candidates of an enumeration. *)
Lemma select_first_max (okb : nat -> bool) (masks : list mask_data) (l : list overlap_entry) :
  map ia l = map (fun p => (fst p, area (snd p)))
               (filter (fun p => okb (fst p)) (enumerate masks)) ->
  l <> [] ->
  exists best md,
    py_max entry_area l = Return best /\
    nth_error masks (index best) = Some md /\
    okb (index best) = true /\
    forall j md', nth_error masks j = Some md' -> okb j = true ->
      area md' <= area md /\ (area md' = area md -> (index best <= j)%nat).
Proof.
  intros Hmap Hne. destruct l as [|e l]; [congruence|]. clear Hne.
  cbn [py_max].
  destruct (max_from_split entry_area l e) as (l1 & l2 & Heq & H1 & H2).
  set (m := max_from entry_area e l) in *.
  rewrite Heq in Hmap. rewrite map_app in Hmap. cbn [map] in Hmap.
  symmetry in Hmap.
  apply map_eq_app in Hmap. destruct Hmap as (c1 & c2' & Hf & Hc1 & Hc2).
  apply map_eq_cons in Hc2. destruct Hc2 as (p & c2 & -> & Hp & Hc2).
  destruct p as [i md]. cbn [fst snd] in Hp. unfold ia in Hp.
  injection Hp as Hi Ha.
  assert (Hin : In (i, md) (filter (fun p => okb (fst p)) (enumerate masks))).
  { rewrite Hf. apply in_or_app. right. left. reflexivity. }
  apply filter_In in Hin. destruct Hin as [Hin Hok]. cbn [fst] in Hok.
  apply enumerate_In in Hin.
  pose proof (filter_enumerate_from_split _ _ _ _ _ _ Hf) as [_ Hlater].
  cbn [fst] in Hlater.
  exists m, md. rewrite <- Hi.
  split; [reflexivity|]. split; [assumption|]. split; [assumption|].
  intros j md' Hj Hokj.
  assert (Hjin : In (j, md') (c1 ++ (i, md) :: c2)).
  { rewrite <- Hf. apply filter_In. split; [apply enumerate_In|]; assumption. }
  apply in_app_or in Hjin. destruct Hjin as [Hjin | [Hjin | Hjin]].
  - assert (Hx : In (j, area md') (map ia l1)).
    { rewrite <- Hc1. apply (in_map (fun p => (fst p, area (snd p))) _ _ Hjin). }
    apply in_map_iff in Hx. destruct Hx as (x & Hx & Hxin).
    rewrite Forall_forall in H1. specialize (H1 _ Hxin).
    unfold ia in Hx. injection Hx as _ Hxa. lia.
  - injection Hjin as -> ->. split; [lia | intros _; lia].
  - assert (Hx : In (j, area md') (map ia l2)).
    { rewrite <- Hc2. apply (in_map (fun p => (fst p, area (snd p))) _ _ Hjin). }
    apply in_map_iff in Hx. destruct Hx as (x & Hx & Hxin).
    rewrite Forall_forall in H2. specialize (H2 _ Hxin).
    unfold ia in Hx. injection Hx as _ Hxa.
    rewrite Forall_forall in Hlater. specialize (Hlater _ Hjin). cbn [fst] in Hlater.
    split; [lia | intros _; lia].
Qed.

Lemma filter_nil_iff {A : Type} (f : A -> bool) (l : list A) :
  filter f l = [] <-> forall x, In x l -> f x = false.
Proof.
  induction l as [|y l IH]; simpl.
  - split; [intros _ x [] | reflexivity].
  - destruct (f y) eqn:Hy.
    + split; [discriminate|]. intros H. specialize (H y (or_introl eq_refl)). congruence.
    + rewrite IH. split.
      * intros H x [<- | Hx]; [assumption | apply H; assumption].
      * intros H x Hx. apply H. right. assumption.
Qed.

Lemma kept_nil_iff (okb : nat -> bool) (masks : list mask_data) :
  filter (fun p => okb (fst p)) (enumerate masks) = [] <->
  forall j md, nth_error masks j = Some md -> okb j = false.
Proof.
  rewrite filter_nil_iff. split.
  - intros H j md Hj. apply (H (j, md)). apply enumerate_In. assumption.
  - intros H [j md] Hj. apply enumerate_In in Hj. apply (H j md Hj).
Qed.

Lemma map_ia_nil (l : list overlap_entry) (c : list (nat * mask_data)) :
  map ia l = map (fun p => (fst p, area (snd p))) c -> (l = [] <-> c = []).
Proof.
  intros H. destruct l, c; simpl in H; try discriminate; split; congruence.
Qed.

Lemma select_first_max_index (okb : nat -> bool) masks l :
  map ia l = map (fun p => (fst p, area (snd p)))
               (filter (fun p => okb (fst p)) (enumerate masks)) ->
  l <> [] ->
  exists i, (best <- py_max entry_area l ;; Return (index best)) = Return i /\
            first_largest (fun j => okb j = true) masks i.
Proof.
  intros Hmap Hne.
  destruct (select_first_max okb masks l Hmap Hne) as (best & md & Hmax & Hnth & Hok & Hall).
  exists (index best). rewrite Hmax. split; [reflexivity|].
  exists md. auto.
Qed.

Lemma select_best_mask_tier1_kept fs face sid masks :
  (exists j md, nth_error masks j = Some md /\ tier1_okb fs face sid j = true) ->
  exists i, select_best_mask fs face sid masks = Return i /\
            first_largest (fun j => tier1_okb fs face sid j = true) masks i.
Proof.
  intros (j & md & Hj & Hok). unfold select_best_mask.
  destruct (tier1_loop_spec fs face sid (enumerate masks) []) as (l & Hl & Hm).
  rewrite Hl. cbn [app bind].
  assert (Hne : l <> []).
  { intros Hnil. apply (map_ia_nil _ _ Hm) in Hnil.
    rewrite kept_nil_iff in Hnil. rewrite (Hnil j md Hj) in Hok. discriminate. }
  destruct l as [|e l]; [congruence|]. cbn [bind].
  apply (select_first_max_index _ _ _ Hm Hne).
Qed.

Lemma select_best_mask_tier1_none fs face sid masks :
  (forall j md, nth_error masks j = Some md -> tier1_okb fs face sid j = false) ->
  tier1_loop fs face sid (enumerate masks) [] = Return [] /\
  select_best_mask fs face sid masks =
    match tier2_loop fs face sid (enumerate masks) [] with
    | [] => Raise no_overlap_error
    | found => best <- py_max entry_area found ;; Return (index best)
    end.
Proof.
  intros Hnone. unfold select_best_mask.
  destruct (tier1_loop_spec fs face sid (enumerate masks) []) as (l & Hl & Hm).
  assert (Hnil : l = []).
  { apply (map_ia_nil _ _ Hm). apply kept_nil_iff. assumption. }
  subst l. rewrite Hl. cbn [app bind]. split; [reflexivity|].
  destruct (tier2_loop fs face sid (enumerate masks) []); reflexivity.
Qed.

Lemma select_best_mask_tier2_kept fs face sid masks :
  (forall j md, nth_error masks j = Some md -> tier1_okb fs face sid j = false) ->
  (exists j md, nth_error masks j = Some md /\ center_hitb fs face sid j = true) ->
  exists i, select_best_mask fs face sid masks = Return i /\
            first_largest (fun j => center_hitb fs face sid j = true) masks i.
Proof.
  intros Hnone (j & md & Hj & Hok).
  destruct (select_best_mask_tier1_none _ _ _ _ Hnone) as [_ ->].
  destruct (tier2_loop_spec fs face sid (enumerate masks) []) as (l & Hl & Hm).
  rewrite Hl. cbn [app].
  assert (Hne : l <> []).
  { intros Hnil. apply (map_ia_nil _ _ Hm) in Hnil.
    rewrite kept_nil_iff in Hnil. rewrite (Hnil j md Hj) in Hok. discriminate. }
  destruct l as [|e l]; [congruence|].
  apply (select_first_max_index _ _ _ Hm Hne).
Qed.

Lemma select_best_mask_none_kept fs face sid masks :
  (forall j md, nth_error masks j = Some md -> tier1_okb fs face sid j = false) ->
  (forall j md, nth_error masks j = Some md -> center_hitb fs face sid j = false) ->
  select_best_mask fs face sid masks = Raise no_overlap_error.
Proof.
  intros Hnone1 Hnone2.
  destruct (select_best_mask_tier1_none _ _ _ _ Hnone1) as [_ ->].
  destruct (tier2_loop_spec fs face sid (enumerate masks) []) as (l & Hl & Hm).
  rewrite Hl. cbn [app].
  assert (Hnil : l = []).
  { apply (map_ia_nil _ _ Hm). apply kept_nil_iff. assumption. }
  subst l. reflexivity.
Qed.

Lemma tier1_okb_iff fs face sid i :
  tier1_okb fs face sid i = true <-> qualifies_tier1 fs face sid i.
Proof.
  unfold tier1_okb, qualifies_tier1.
  destruct (cv2_imread fs (mask_path sid i)) as [r|].
  - rewrite Qle_bool_iff. split.
    + intros H. exists r. auto.
    + intros (r' & Hr & H). injection Hr as <-. assumption.
  - split; [discriminate | intros (r & Hr & _); discriminate].
Qed.

Lemma center_hitb_iff fs face sid i :
  center_hitb fs face sid i = true <-> center_hit fs face sid i.
Proof.
  unfold center_hitb, center_hit, face_center_x, face_center_y.
  destruct (cv2_imread fs (mask_path sid i)) as [r|].
  - destruct (shape r) as [h w] eqn:Hs.
    rewrite !andb_true_iff, !Z.leb_le, !Z.ltb_lt, Z.gtb_gt.
    split.
    + intros H. exists r. rewrite Hs. cbn [fst snd]. intuition.
    + intros (r' & Hr & H). injection Hr as <-. rewrite Hs in H. cbn [fst snd] in H.
      intuition.
  - split; [discriminate | intros (r & Hr & _); discriminate].
Qed.

Lemma first_largest_ext (P Q : nat -> Prop) masks i :
  (forall j, P j <-> Q j) -> first_largest P masks i -> first_largest Q masks i.
Proof.
  intros HPQ (md & Hnth & HP & Hall). exists md.
  split; [assumption|]. split; [apply HPQ; assumption|].
  intros j md' Hj HQ. apply (Hall j md' Hj). apply HPQ. assumption.
Qed.

(** The selector either returns an index of the candidate list or raises
    the "no overlap" error; in particular it never divides by zero. *)
Lemma select_best_mask_cases fs face sid masks :
  (exists i, select_best_mask fs face sid masks = Return i /\ (i < List.length masks)%nat)
  \/ select_best_mask fs face sid masks = Raise no_overlap_error.
Proof.
  destruct (filter (fun p => tier1_okb fs face sid (fst p)) (enumerate masks))
    as [|[j md] c] eqn:Hf1.
  - rewrite kept_nil_iff in Hf1.
    destruct (filter (fun p => center_hitb fs face sid (fst p)) (enumerate masks))
      as [|[j md] c] eqn:Hf2.
    + rewrite kept_nil_iff in Hf2. right.
      apply select_best_mask_none_kept; assumption.
    + left. assert (Hin : In (j, md) (filter (fun p => center_hitb fs face sid (fst p))
                                              (enumerate masks)))
        by (rewrite Hf2; left; reflexivity).
      apply filter_In in Hin. destruct Hin as [Hin Hok]. apply enumerate_In in Hin.
      destruct (select_best_mask_tier2_kept fs face sid masks Hf1)
        as (i & Hi & md' & Hnth & _); [exists j, md; auto|].
      exists i. split; [assumption|]. apply nth_error_Some. congruence.
  - left. assert (Hin : In (j, md) (filter (fun p => tier1_okb fs face sid (fst p))
                                            (enumerate masks)))
      by (rewrite Hf1; left; reflexivity).
    apply filter_In in Hin. destruct Hin as [Hin Hok]. apply enumerate_In in Hin.
    destruct (select_best_mask_tier1_kept fs face sid masks)
      as (i & Hi & md' & Hnth & _); [exists j, md; auto|].
    exists i. split; [assumption|]. apply nth_error_Some. congruence.
Qed.

(** A face box with [right <= left] or [bottom <= top] meets no raster. *)
Lemma degenerate_overlap_count face r :
  bb_right face <= bb_left face \/ bb_bottom face <= bb_top face ->
  overlap_count face r = 0.
Proof.
  intros H. unfold overlap_count. destruct (shape r) as [h w].
  apply count_nonzero_crop_empty. lia.
Qed.

(** ** The overlap count, pixel by pixel *)

Lemma skipn_cons_nth {A : Type} (d : A) (l : list A) :
  forall lo a rest, skipn lo l = a :: rest -> nth lo l d = a /\ skipn (S lo) l = rest.
Proof.
  induction l as [|x l IH]; intros lo a rest H.
  - destruct lo; discriminate.
  - destruct lo as [|lo].
    + cbn in H. injection H as <- <-. split; reflexivity.
    + cbn [skipn] in H. destruct (IH lo a rest H) as [H1 H2]. split; assumption.
Qed.

Lemma skipn_nil_nth {A : Type} (d : A) (l : list A) :
  forall lo x, skipn lo l = [] -> (lo <= x)%nat -> nth x l d = d.
Proof.
  induction l as [|y l IH]; intros lo x H Hle.
  - destruct x; reflexivity.
  - destruct lo as [|lo]; [discriminate|]. cbn [skipn] in H.
    destruct x as [|x]; [lia|]. cbn [nth]. apply (IH lo x H). lia.
Qed.

Lemma count_nonzero_row_cons v row :
  count_nonzero_row (v :: row) = (if negb (v =? 0) then 1 else 0) + count_nonzero_row row.
Proof.
  unfold count_nonzero_row. cbn [filter]. destruct (negb (v =? 0)); cbn [List.length]; lia.
Qed.

(** A slice of a row holds as many non-zero values as there are non-zero
    pixels at its column indices. *)
Lemma count_nonzero_row_slice (row : list Z) :
  forall n lo,
    count_nonzero_row (firstn n (skipn lo row)) =
      Z.of_nat (List.length (filter (fun x => negb (nth x row 0 =? 0)) (seq lo n))).
Proof.
  induction n as [|n IH]; intros lo; [reflexivity|].
  cbn [seq filter]. destruct (skipn lo row) as [|a rest] eqn:Hs.
  - rewrite (skipn_nil_nth 0 row lo lo Hs (Nat.le_refl _)). cbn [Z.eqb negb firstn].
    rewrite <- IH.
    assert (Hs' : skipn (S lo) row = []).
    { clear -Hs. revert lo Hs. induction row as [|y row IHr]; intros lo Hs.
      - reflexivity.
      - destruct lo; [discriminate|]. cbn [skipn] in *. destruct lo.
        + cbn in Hs. subst row. reflexivity.
        + apply (IHr (S lo)). exact Hs. }
    rewrite Hs'. destruct n; reflexivity.
  - destruct (skipn_cons_nth 0 row lo a rest Hs) as [-> <-].
    cbn [firstn]. rewrite count_nonzero_row_cons, IH.
    destruct (negb (a =? 0)); cbn [List.length]; lia.
Qed.

Lemma count_nonzero_rows_slice (c0 c1 : Z) (rows : raster) :
  forall n lo,
    count_nonzero (map (slice c0 c1) (firstn n (skipn lo rows))) =
      fold_right (fun y acc => count_nonzero_row (slice c0 c1 (nth y rows [])) + acc) 0
                 (seq lo n).
Proof.
  induction n as [|n IH]; intros lo; [reflexivity|].
  cbn [seq fold_right]. destruct (skipn lo rows) as [|a rest] eqn:Hs.
  - rewrite (skipn_nil_nth [] rows lo lo Hs (Nat.le_refl _)).
    rewrite <- IH.
    assert (Hs' : skipn (S lo) rows = []).
    { clear -Hs. revert lo Hs. induction rows as [|y rows IHr]; intros lo Hs.
      - reflexivity.
      - destruct lo; [discriminate|]. cbn [skipn] in *. destruct lo.
        + cbn in Hs. subst rows. reflexivity.
        + apply (IHr (S lo)). exact Hs. }
    rewrite Hs'.
    assert (Hnil : count_nonzero_row (slice c0 c1 []) = 0)
      by (unfold slice; rewrite skipn_nil, firstn_nil; reflexivity).
    rewrite Hnil. destruct n; reflexivity.
  - destruct (skipn_cons_nth [] rows lo a rest Hs) as [-> <-].
    cbn [firstn map count_nonzero fold_right]. fold (count_nonzero).
    rewrite <- IH. reflexivity.
Qed.

Lemma filter_list_prod_length {A B : Type} (P : A * B -> bool) (xs : list B) (ys : list A) :
  Z.of_nat (List.length (filter P (list_prod ys xs))) =
    fold_right (fun y acc => Z.of_nat (List.length (filter (fun x => P (y, x)) xs)) + acc) 0 ys.
Proof.
  induction ys as [|y ys IH]; [reflexivity|].
  cbn [list_prod fold_right]. rewrite filter_app, length_app, Nat2Z.inj_add, IH.
  f_equal. f_equal.
  clear. induction xs as [|x xs IHx]; [reflexivity|].
  cbn [map filter]. destruct (P (y, x)); cbn [List.length]; rewrite IHx; reflexivity.
Qed.

Lemma fold_right_sum_ext {A : Type} (f g : A -> Z) (l : list A) :
  (forall y, In y l -> f y = g y) ->
  fold_right (fun y acc => f y + acc) 0 l = fold_right (fun y acc => g y + acc) 0 l.
Proof.
  induction l as [|y l IH]; intros H; [reflexivity|].
  cbn [fold_right]. rewrite (H y (or_introl eq_refl)), IH; [reflexivity|].
  intros z Hz. apply H. right. assumption.
Qed.

(** The overlap count of the code is the number of mask-positive pixels of
    the clamped face rectangle. *)
Lemma overlap_count_positive_pixels (face : face_bbox) (r : raster) :
  overlap_count face r = Z.of_nat (List.length (positive_pixels face r)).
Proof.
  unfold overlap_count, positive_pixels. destruct (shape r) as [h w].
  set (ct := Z.max 0 (bb_top face)). set (cb := Z.min h (bb_bottom face)).
  set (cl := Z.max 0 (bb_left face)). set (cr := Z.min w (bb_right face)).
  unfold crop. unfold slice at 2.
  rewrite count_nonzero_rows_slice.
  rewrite filter_list_prod_length.
  apply fold_right_sum_ext.
  intros y Hy. unfold slice. rewrite count_nonzero_row_slice.
  f_equal. f_equal. apply filter_ext_in. intros x Hx.
  unfold pixel. cbn [fst snd]. rewrite !Nat2Z.id. reflexivity.
Qed.

(** On every face area up to 300 and every overlap count up to the face
    area, the test on doubles and the test on exact rationals agree. *)
Lemma overlap_tests_agree : overlap_tests_agree_upto 300 = true.
Proof. vm_compute. reflexivity. Qed.

(** ** The mask selector *)

(** C1. When at least one candidate has an overlap percentage
    (100 * mask-positive pixels inside the clamped face rectangle / face
    area) of at least 10, [select_best_mask] returns the index of the
    qualifying candidate of largest total mask area, and of the first such
    candidate in the input order when several have that area. *)
Theorem select_best_mask_tier1_largest_area fs face sid masks :
  (exists j md, nth_error masks j = Some md /\ qualifies_tier1 fs face sid j) ->
  exists i, select_best_mask fs face sid masks = Return i /\
            first_largest (qualifies_tier1 fs face sid) masks i.
Proof.
  intros (j & md & Hj & Hq).
  destruct (select_best_mask_tier1_kept fs face sid masks) as (i & Hi & Hfl).
  - exists j, md. split; [assumption | apply tier1_okb_iff; assumption].
  - exists i. split; [assumption|].
    apply (first_largest_ext _ _ _ _ (tier1_okb_iff fs face sid) Hfl).
Qed.

Lemma select_best_mask_tier1_largest_area_witness :
  exists i, select_best_mask Sample.three_files Sample.face_10 "s" Sample.three_masks = Return i /\
            first_largest (qualifies_tier1 Sample.three_files Sample.face_10 "s")
                          Sample.three_masks i.
Proof.
  apply (select_best_mask_tier1_largest_area Sample.three_files Sample.face_10 "s"
           Sample.three_masks).
  exists 0%nat, {| segmentation := []; area := 500 |}.
  split; [reflexivity|].
  exists (Sample.raster_with 15). split; [reflexivity|].
  vm_compute. discriminate.
Defined.

(** C2. When no candidate reaches 10%, [select_best_mask] tests for each
    candidate only the pixel at the centre of the face box,
    ((left+right)//2, (top+bottom)//2), and returns the candidate of
    largest area among those positive there, the first one on equal
    areas. *)
Theorem select_best_mask_tier2_center_point fs face sid masks :
  (forall j md, nth_error masks j = Some md -> ~ qualifies_tier1 fs face sid j) ->
  (exists j md, nth_error masks j = Some md /\ center_hit fs face sid j) ->
  exists i, select_best_mask fs face sid masks = Return i /\
            first_largest (center_hit fs face sid) masks i.
Proof.
  intros Hnone (j & md & Hj & Hc).
  destruct (select_best_mask_tier2_kept fs face sid masks) as (i & Hi & Hfl).
  - intros k mdk Hk. specialize (Hnone k mdk Hk).
    destruct (tier1_okb fs face sid k) eqn:E; [|reflexivity].
    apply tier1_okb_iff in E. contradiction.
  - exists j, md. split; [assumption | apply center_hitb_iff; assumption].
  - exists i. split; [assumption|].
    apply (first_largest_ext _ _ _ _ (center_hitb_iff fs face sid) Hfl).
Qed.

(** C3. For a face box with [right <= left] or [bottom <= top], the
    overlap of every candidate counts as zero, no candidate qualifies at
    tier 1, the selection is the one of the centre-point fallback, and no
    division error is raised. *)
Theorem select_best_mask_degenerate_face fs face sid masks :
  bb_right face <= bb_left face \/ bb_bottom face <= bb_top face ->
  (forall r, overlap_count face r = 0) /\
  (forall j, ~ qualifies_tier1 fs face sid j) /\
  tier1_loop fs face sid (enumerate masks) [] = Return [] /\
  select_best_mask fs face sid masks =
    match tier2_loop fs face sid (enumerate masks) [] with
    | [] => Raise no_overlap_error
    | found => best <- py_max entry_area found ;; Return (index best)
    end /\
  ((exists j md, nth_error masks j = Some md /\ center_hit fs face sid j) ->
   exists i, select_best_mask fs face sid masks = Return i /\
             first_largest (center_hit fs face sid) masks i) /\
  (forall msg, select_best_mask fs face sid masks <> Raise (ZeroDivisionError msg)).
Proof.
  intros Hdeg.
  assert (Hcount : forall r, overlap_count face r = 0)
    by (intros r; apply degenerate_overlap_count; assumption).
  assert (Hno : forall j, tier1_okb fs face sid j = false).
  { intros j. unfold tier1_okb.
    destruct (cv2_imread fs (mask_path sid j)) as [r|]; [|reflexivity].
    apply overlap_pct_empty, Hcount. }
  assert (Hnq : forall j, ~ qualifies_tier1 fs face sid j).
  { intros j Hq. apply tier1_okb_iff in Hq. rewrite Hno in Hq. discriminate. }
  destruct (select_best_mask_tier1_none fs face sid masks) as [Ht1 Hsel];
    [intros; apply Hno|].
  repeat (split; [assumption|]). split.
  - intros (j & md & Hj & Hc).
    destruct (select_best_mask_tier2_kept fs face sid masks) as (i & Hi & Hfl).
    + intros; apply Hno.
    + exists j, md. split; [assumption | apply center_hitb_iff; assumption].
    + exists i. split; [assumption|].
      apply (first_largest_ext _ _ _ _ (center_hitb_iff fs face sid) Hfl).
  - intros msg Hz.
    destruct (select_best_mask_cases fs face sid masks) as [(i & Hi & _) | Hr];
      rewrite Hz in *; discriminate.
Qed.

Lemma select_best_mask_tier2_center_point_witness :
  exists i, select_best_mask Sample.center_files Sample.face_10 "c" Sample.center_masks = Return i /\
            first_largest (center_hit Sample.center_files Sample.face_10 "c")
                          Sample.center_masks i.
Proof.
  apply (select_best_mask_tier2_center_point Sample.center_files Sample.face_10 "c"
           Sample.center_masks).
  - intros j md Hj Hq. apply tier1_okb_iff in Hq.
    destruct j as [|[|[|j]]]; try (vm_compute in Hq; discriminate).
    simpl in Hj. destruct j; discriminate.
  - exists 0%nat, {| segmentation := []; area := 300 |}.
    split; [reflexivity|]. apply center_hitb_iff. reflexivity.
Defined.

Lemma select_best_mask_degenerate_face_witness :
  select_best_mask Sample.center_files Sample.line_face "c" Sample.center_masks = Return 1%nat /\
  forall msg, select_best_mask Sample.center_files Sample.line_face "c" Sample.center_masks
              <> Raise (ZeroDivisionError msg).
Proof.
  destruct (select_best_mask_degenerate_face Sample.center_files Sample.line_face "c"
              Sample.center_masks) as (_ & _ & _ & Hsel & _ & Hz).
  - left. simpl. lia.
  - split; [rewrite Hsel; reflexivity | exact Hz].
Defined.


(** ** Lemmas on the face matcher *)

Lemma tuple_ltb_false_iff (a b : Z * nat) :
  tuple_ltb a b = false <-> fst b < fst a \/ (fst b = fst a /\ (snd b <= snd a)%nat).
Proof.
  unfold tuple_ltb.
  destruct (fst a <? fst b) eqn:E1; destruct (fst a =? fst b) eqn:E2;
    destruct (snd a <? snd b)%nat eqn:E3; cbn;
    rewrite ?Z.ltb_lt, ?Z.ltb_ge, ?Z.eqb_eq, ?Z.eqb_neq, ?Nat.ltb_lt, ?Nat.ltb_ge in *;
    split; intros H; try discriminate; try reflexivity; try lia.
Qed.

(** After [sort(reverse=True)] the head is the largest tuple. *)
Lemma sort_reverse_head (l : list (Z * nat)) :
  l <> [] ->
  exists m t, sort_reverse l = m :: t /\ In m l /\
              forall x, In x l -> tuple_ltb m x = false.
Proof.
  induction l as [|x l IH]; [congruence|]. intros _.
  cbn [sort_reverse fold_right]. fold (sort_reverse l).
  destruct l as [|y l'].
  - exists x, []. cbn. split; [reflexivity|]. split; [left; reflexivity|].
    intros z [<- | []]. apply tuple_ltb_false_iff. lia.
  - destruct IH as (m & t & Hs & Hin & Hmax); [congruence|].
    rewrite Hs. cbn [insert_reverse].
    destruct (tuple_ltb x m) eqn:Hxm.
    + exists m, (insert_reverse x t). split; [reflexivity|]. split; [right; assumption|].
      intros z [<- | Hz]; [|apply Hmax; assumption].
      apply tuple_ltb_false_iff.
      unfold tuple_ltb in Hxm. apply orb_true_iff in Hxm.
      rewrite andb_true_iff, Z.ltb_lt, Z.eqb_eq, Nat.ltb_lt in Hxm. lia.
    + exists x, (m :: t). split; [reflexivity|]. split; [left; reflexivity|].
      intros z [<- | Hz].
      * apply tuple_ltb_false_iff. lia.
      * specialize (Hmax z Hz). apply tuple_ltb_false_iff in Hmax, Hxm.
        apply tuple_ltb_false_iff. lia.
Qed.

Lemma getitem_nth_error {A : Type} (l : list A) i x :
  nth_error l i = Some x -> getitem l i = Return x.
Proof. unfold getitem. intros ->. reflexivity. Qed.

(** With several faces the kept one has the largest area; among faces of
    that area it is the last one. *)
Lemma largest_query_location_latest (locs : list location) :
  (1 < List.length locs)%nat ->
  exists kept, largest_query_location locs = Return kept /\
               picks_latest_largest locs kept.
Proof.
  intros Hlen. unfold largest_query_location.
  replace (1 <? List.length locs)%nat with true by (symmetry; apply Nat.ltb_lt; assumption).
  set (fa := map (fun p => (bbox_area (snd p), fst p)) (enumerate locs)).
  destruct (sort_reverse_head fa) as (m & t & Hs & Hin & Hmax).
  { subst fa. destruct locs; [simpl in Hlen; lia | discriminate]. }
  rewrite Hs. cbn [getitem nth_error bind].
  subst fa. apply in_map_iff in Hin. destruct Hin as ([i loc] & Hm & Hin).
  cbn [fst snd] in Hm. subst m. cbn [snd].
  apply enumerate_In in Hin. rewrite (getitem_nth_error _ _ _ Hin). cbn [bind].
  exists [loc]. split; [reflexivity|].
  exists i, loc. split; [reflexivity|]. split; [assumption|].
  intros j loc' Hj.
  assert (Hjin : In (bbox_area loc', j)
                    (map (fun p => (bbox_area (snd p), fst p)) (enumerate locs))).
  { apply in_map_iff. exists (j, loc'). split; [reflexivity | apply enumerate_In; assumption]. }
  specialize (Hmax _ Hjin). apply tuple_ltb_false_iff in Hmax. cbn [fst snd] in Hmax. lia.
Qed.

Lemma largest_query_location_total (locs : list location) :
  locs <> [] -> exists loc, largest_query_location locs = Return [loc].
Proof.
  intros Hne. destruct locs as [|l0 [|l1 locs]]; [congruence | |].
  - exists l0. reflexivity.
  - destruct (largest_query_location_latest (l0 :: l1 :: locs)) as (kept & Hk & i & loc & -> & _);
      [simpl; lia|].
    exists loc. assumption.
Qed.

Lemma first_match_hit (locs : list location) :
  forall (dists : list Q) j loc d,
    nth_error locs j = Some loc -> nth_error dists j = Some d ->
    (d <= threshold)%Q ->
    (forall k d', (k < j)%nat -> nth_error dists k = Some d' -> ~ (d' <= threshold)%Q) ->
    first_match locs (map (fun d => Qle_bool d threshold) dists) dists = Some (face_of loc d).
Proof.
  induction locs as [|[[[top rgt] bottom] lft] locs IH]; intros dists j loc d Hl Hd Hle Hfirst.
  - destruct j; discriminate.
  - destruct dists as [|d0 dists]; [destruct j; discriminate|].
    cbn [map first_match]. destruct j as [|j].
    + cbn in Hl, Hd. injection Hl as <-. injection Hd as <-.
      apply Qle_bool_iff in Hle. rewrite Hle. reflexivity.
    + cbn in Hl, Hd.
      destruct (Qle_bool d0 threshold) eqn:E.
      * apply Qle_bool_iff in E. exfalso.
        apply (Hfirst 0%nat d0); [lia | reflexivity | assumption].
      * apply (IH dists j loc d Hl Hd Hle).
        intros k d' Hk Hd'. apply (Hfirst (S k) d'); [lia | assumption].
Qed.

Lemma first_match_none (locs : list location) :
  forall (dists : list Q),
    (forall j d, nth_error dists j = Some d -> ~ (d <= threshold)%Q) ->
    first_match locs (map (fun d => Qle_bool d threshold) dists) dists = None.
Proof.
  induction locs as [|[[[top rgt] bottom] lft] locs IH]; intros dists Hnone; [reflexivity|].
  destruct dists as [|d0 dists]; [reflexivity|]. cbn [map first_match].
  destruct (Qle_bool d0 threshold) eqn:E.
  - apply Qle_bool_iff in E. exfalso. apply (Hnone 0%nat d0); [reflexivity | assumption].
  - apply IH. intros j d Hd. apply (Hnone (S j) d). assumption.
Qed.

Section FaceMatcher.

Context {X : Externals}.

Lemma find_matching_face_unfold (T Qimg : image) kept :
  face_locations Qimg <> [] ->
  largest_query_location (face_locations Qimg) = Return kept ->
  find_matching_face T Qimg =
    (query_encoding <- getitem (face_encodings Qimg kept) 0 ;;
     let distances := face_distance (face_encodings T (face_locations T)) query_encoding in
     Return (first_match (face_locations T)
               (map (fun d => Qle_bool d threshold) distances) distances)).
Proof.
  intros Hne Hk. unfold find_matching_face.
  destruct (face_locations Qimg) as [|l0 ls] eqn:Hq; [congruence|].
  cbn [List.length Nat.eqb]. rewrite Hk. reflexivity.
Qed.

(** C5 (amended). For a reference image with more than one
    detected face, [find_matching_face] keeps the face of largest
    bounding-box area (bottom-top)*(right-left), found by sorting the
    pairs (area, index) in descending order, so that among faces of
    equal area the one detected last is kept; the distances to the
    target faces are computed from the encoding of that face alone. *)
Theorem find_matching_face_largest_reference (T Qimg : image) :
  (1 < List.length (face_locations Qimg))%nat ->
  exists kept,
    largest_query_location (face_locations Qimg) = Return kept /\
    picks_latest_largest (face_locations Qimg) kept /\
    find_matching_face T Qimg =
      (query_encoding <- getitem (face_encodings Qimg kept) 0 ;;
       let distances :=
         face_distance (face_encodings T (face_locations T)) query_encoding in
       Return (first_match (face_locations T)
                 (map (fun d => Qle_bool d threshold) distances) distances)).
Proof.
  intros Hlen.
  destruct (largest_query_location_latest _ Hlen) as (kept & Hk & Hp).
  exists kept. split; [assumption|]. split; [assumption|].
  apply find_matching_face_unfold; [|assumption].
  destruct (face_locations Qimg); [simpl in Hlen; lia | discriminate].
Qed.

(** C6. [find_matching_face] returns the first target face, in the order
    of the detector, whose distance to the reference encoding is at most
    the threshold 0.6, whether or not a later face is closer, and returns
    [None] when no target face is within the threshold. *)
Theorem find_matching_face_first_under_threshold (T Qimg : image) kept qenc :
  face_locations Qimg <> [] ->
  largest_query_location (face_locations Qimg) = Return kept ->
  getitem (face_encodings Qimg kept) 0 = Return qenc ->
  let distances := face_distance (face_encodings T (face_locations T)) qenc in
  (forall j loc d,
      nth_error (face_locations T) j = Some loc ->
      nth_error distances j = Some d ->
      (d <= 6 # 10)%Q ->
      (forall k d', (k < j)%nat -> nth_error distances k = Some d' -> ~ (d' <= 6 # 10)%Q) ->
      find_matching_face T Qimg = Return (Some (face_of loc d))) /\
  ((forall j d, nth_error distances j = Some d -> ~ (d <= 6 # 10)%Q) ->
   find_matching_face T Qimg = Return None).
Proof.
  intros Hne Hk Henc distances.
  rewrite (find_matching_face_unfold T Qimg kept Hne Hk), Henc. cbn [bind].
  fold distances. split.
  - intros j loc d Hl Hd Hle Hfirst.
    rewrite (first_match_hit _ _ j loc d Hl Hd Hle Hfirst). reflexivity.
  - intros Hnone. rewrite (first_match_none _ _ Hnone). reflexivity.
Qed.

(** C10. Provided the face library returns one encoding per location,
    a reference image with a face and a target image without any gives
    [None] and no exception; [find_matching_face] raises only when the
    reference image has no face, and then it raises "No faces found in
    query image". *)
Theorem find_matching_face_no_target_face (T Qimg : image) :
  (forall im locs, List.length (face_encodings im locs) = List.length locs) ->
  (face_locations Qimg <> [] -> face_locations T = [] ->
   find_matching_face T Qimg = Return None) /\
  (face_locations Qimg = [] ->
   find_matching_face T Qimg = Raise (ValueError "No faces found in query image")) /\
  (forall e, find_matching_face T Qimg = Raise e ->
             face_locations Qimg = [] /\ e = ValueError "No faces found in query image").
Proof.
  intros Hcontract.
  assert (Hok : face_locations Qimg <> [] ->
                exists qenc,
                  find_matching_face T Qimg =
                    Return (first_match (face_locations T)
                              (map (fun d => Qle_bool d threshold)
                                   (face_distance (face_encodings T (face_locations T)) qenc))
                              (face_distance (face_encodings T (face_locations T)) qenc))).
  { intros Hne. destruct (largest_query_location_total _ Hne) as (loc & Hk).
    rewrite (find_matching_face_unfold T Qimg [loc] Hne Hk).
    specialize (Hcontract Qimg [loc]).
    destruct (face_encodings Qimg [loc]) as [|qenc encs]; [discriminate|].
    exists qenc. reflexivity. }
  split; [|split].
  - intros Hne HT. destruct (Hok Hne) as (qenc & ->). rewrite HT. reflexivity.
  - intros Hq. unfold find_matching_face. rewrite Hq. reflexivity.
  - intros e He. destruct (face_locations Qimg) as [|l0 ls] eqn:Hq.
    + split; [reflexivity|]. unfold find_matching_face in He. rewrite Hq in He.
      cbn in He. congruence.
    + destruct Hok as (qenc & Hr); [discriminate|]. rewrite Hr in He. discriminate.
Qed.

End FaceMatcher.

(** C5 as the specification states it. The reference image [Sample.two_reference_faces] has two
    faces of area 100; the face that is kept is the second one, not the
    earlier one. *)
Lemma find_matching_face_tie_counterexample :
  (1 < List.length (@face_locations Sample.externals Sample.two_reference_faces))%nat /\
  exists kept,
    largest_query_location (@face_locations Sample.externals Sample.two_reference_faces)
      = Return kept /\
    ~ picks_earliest_largest
        (@face_locations Sample.externals Sample.two_reference_faces) kept.
Proof.
  split; [vm_compute; lia|].
  exists [(0, 30, 10, 20)]. split; [reflexivity|].
  intros (i & loc & Hkept & Hnth & Hall).
  injection Hkept as <-.
  destruct i as [|[|i]].
  - discriminate.
  - specialize (Hall 0%nat (0, 10, 10, 0) eq_refl). destruct Hall as [_ Hall].
    specialize (Hall eq_refl). lia.
  - cbn in Hnth. destruct i; discriminate.
Qed.

Lemma find_matching_face_largest_reference_witness :
  exists kept,
    largest_query_location (@face_locations Sample.externals Sample.two_reference_faces)
      = Return kept /\
    picks_latest_largest (@face_locations Sample.externals Sample.two_reference_faces) kept /\
    @find_matching_face Sample.externals Sample.photo_crowd Sample.two_reference_faces =
      (query_encoding <-
         getitem (@face_encodings Sample.externals Sample.two_reference_faces kept) 0 ;;
       let distances :=
         @face_distance Sample.externals
           (@face_encodings Sample.externals Sample.photo_crowd
              (@face_locations Sample.externals Sample.photo_crowd)) query_encoding in
       Return (first_match (@face_locations Sample.externals Sample.photo_crowd)
                 (map (fun d => Qle_bool d threshold) distances) distances)).
Proof.
  apply (@find_matching_face_largest_reference Sample.externals
           Sample.photo_crowd Sample.two_reference_faces).
  vm_compute. lia.
Defined.

Lemma find_matching_face_first_under_threshold_witness :
  @find_matching_face Sample.externals Sample.photo_crowd Sample.reference_photo
  = Return (Some (face_of (0, 4, 2, 2) (5 # 10))).
Proof.
  refine (proj1 (@find_matching_face_first_under_threshold Sample.externals
                   Sample.photo_crowd Sample.reference_photo [(0, 4, 4, 0)] 50
                   _ eq_refl eq_refl) 1%nat (0, 4, 2, 2) (5 # 10)%Q eq_refl eq_refl _ _).
  - discriminate.
  - vm_compute. discriminate.
  - intros k d' Hk Hd'. destruct k as [|k]; [|lia].
    vm_compute in Hd'. injection Hd' as <-. vm_compute. intros H. apply H. reflexivity.
Defined.

Lemma find_matching_face_no_target_face_witness :
  @find_matching_face Sample.externals Sample.photo_empty Sample.reference_photo = Return None.
Proof.
  refine (proj1 (@find_matching_face_no_target_face Sample.externals
                   Sample.photo_empty Sample.reference_photo _) _ eq_refl).
  - intros im locs. simpl. apply length_map.
  - discriminate.
Defined.


(** ** The inpainting adapter *)

Section Inpainting.

Context {X : Externals}.

(** The outcome of [inpaint_with_lama] once its two input files are written. *)
Lemma inpaint_with_lama_result (im : image) (mask : raster) (sid device : string)
      (w : world) :
  let work_dir := work_dir_of sid in
  let out_dir := out_dir_of sid in
  let w1 := write_file (path_join work_dir "image_mask001.png") (GrayPng mask)
              (write_file (path_join work_dir "image.png") (RgbImage im) w) in
  let run := subprocess_run (lama_args work_dir out_dir device) (files w1) in
  disk_ok (path_join work_dir "image.png") = true ->
  disk_ok (path_join work_dir "image_mask001.png") = true ->
  snd (inpaint_with_lama im mask sid device w) =
    if negb (fst run =? 0)
    then Raise (RuntimeError
                  ("LaMa prediction failed with return code " ++ str_of_Z (fst run)))
    else
      match first_existing (snd run) (possible_outputs out_dir) with
      | None => Raise (FileNotFoundError ("LaMa output not found in " ++ out_dir))
      | Some result_path => Image_open (snd run) result_path
      end.
Proof.
  intros work_dir out_dir w1 run Hd1 Hd2.
  unfold inpaint_with_lama, io_bind at 1 2, Image_save, cv2_imwrite.
  fold work_dir out_dir. change (base_name ++ ".png")%string with "image.png".
  change (base_name ++ "_mask001.png")%string with "image_mask001.png".
  rewrite Hd1, Hd2. cbn [negb]. fold w1.
  unfold io_bind at 1, run_process. fold run.
  destruct run as [rc fs']. cbn [fst snd].
  destruct (negb (rc =? 0)); [reflexivity|].
  unfold io_bind at 1, get_files. cbn [files set_files].
  destruct (first_existing fs' (possible_outputs out_dir)) as [p|]; [|reflexivity].
  unfold io_bind, lift, rmtree, io_ret.
  destruct (Image_open fs' p); reflexivity.
Qed.

(** C9. Once the subprocess has returned 0, [inpaint_with_lama] looks
    for exactly two files, the mask-suffixed name and then the base name,
    opens the first that exists, and raises "LaMa output not found" when
    neither does; a return code other than 0 raises the separate
    "LaMa prediction failed" error. *)
Theorem inpaint_with_lama_output_resolution
        (im : image) (mask : raster) (sid device : string) (w : world) :
  let work_dir := work_dir_of sid in
  let out_dir := out_dir_of sid in
  let w1 := write_file (path_join work_dir "image_mask001.png") (GrayPng mask)
              (write_file (path_join work_dir "image.png") (RgbImage im) w) in
  let returncode := fst (subprocess_run (lama_args work_dir out_dir device) (files w1)) in
  let fs := snd (subprocess_run (lama_args work_dir out_dir device) (files w1)) in
  let p1 := path_join out_dir "image_mask001.png" in
  let p2 := path_join out_dir "image.png" in
  disk_ok (path_join work_dir "image.png") = true ->
  disk_ok (path_join work_dir "image_mask001.png") = true ->
  possible_outputs out_dir = [p1; p2] /\
  (returncode <> 0 ->
   snd (inpaint_with_lama im mask sid device w) =
     Raise (RuntimeError ("LaMa prediction failed with return code " ++ str_of_Z returncode))) /\
  (returncode = 0 ->
   (path_exists fs p1 = true ->
    snd (inpaint_with_lama im mask sid device w) = Image_open fs p1) /\
   (path_exists fs p1 = false -> path_exists fs p2 = true ->
    snd (inpaint_with_lama im mask sid device w) = Image_open fs p2) /\
   (path_exists fs p1 = false -> path_exists fs p2 = false ->
    snd (inpaint_with_lama im mask sid device w) =
      Raise (FileNotFoundError ("LaMa output not found in " ++ out_dir)))).
Proof.
  intros work_dir out_dir w1 returncode fs p1 p2 Hd1 Hd2.
  split; [reflexivity|].
  rewrite (inpaint_with_lama_result im mask sid device w Hd1 Hd2).
  fold work_dir out_dir w1 returncode fs.
  change (possible_outputs out_dir) with [p1; p2]. cbn [first_existing].
  split.
  - intros Hrc. replace (returncode =? 0) with false by lia. reflexivity.
  - intros ->. cbn [Z.eqb negb]. split; [|split].
    + intros ->. reflexivity.
    + intros -> ->. reflexivity.
    + intros -> ->. reflexivity.
Qed.

End Inpainting.

Lemma inpaint_with_lama_output_resolution_witness :
  snd (@inpaint_with_lama Sample.externals Sample.photo_a Sample.dot_raster "s_0" "cuda"
         Sample.empty_world) = Return [[(1, 2, 3)]].
Proof.
  destruct (@inpaint_with_lama_output_resolution Sample.externals Sample.photo_a
              Sample.dot_raster "s_0" "cuda" Sample.empty_world eq_refl eq_refl)
    as (_ & _ & Hok).
  destruct (Hok eq_refl) as (Hfirst & _).
  rewrite (Hfirst eq_refl). reflexivity.
Defined.


(** ** The endpoint *)

Section Endpoint.

Context {X : Externals}.

(** One turn of the loop: the pipeline of the target runs, what it
    returned or raised becomes its entry, and the loop goes on. *)
Lemma process_loop_cons ref_image session idx target_file rest results w :
  process_loop ref_image session ((idx, target_file) :: rest) results w =
    process_loop ref_image session rest
      (results ++ [entry_of target_file
                     (snd (process_target ref_image session idx target_file w))])
      (fst (process_target ref_image session idx target_file w)).
Proof.
  cbn [process_loop]. unfold io_bind at 1, try_except.
  destruct (process_target ref_image session idx target_file w) as [w1 [entry | e]];
    reflexivity.
Qed.

(** The loop never raises and appends one entry per target, in order. *)
Lemma process_loop_total ref_image session ts :
  forall results w, exists w' new,
    process_loop ref_image session ts results w = (w', Return (results ++ new)) /\
    List.length new = List.length ts.
Proof.
  induction ts as [|[idx t] ts IH]; intros results w.
  - exists w, []. rewrite app_nil_r. split; reflexivity.
  - rewrite process_loop_cons.
    destruct (IH (results ++ [entry_of t (snd (process_target ref_image session idx t w))])
                 (fst (process_target ref_image session idx t w)))
      as (w' & new & Hrun & Hlen).
    exists w', (entry_of t (snd (process_target ref_image session idx t w)) :: new).
    rewrite Hrun, <- app_assoc. split; [reflexivity | simpl; lia].
Qed.

Lemma process_loop_app ref_image session pre :
  forall post results w,
    process_loop ref_image session (pre ++ post) results w =
      match process_loop ref_image session pre results w with
      | (w1, Return results1) => process_loop ref_image session post results1 w1
      | (w1, Raise e) => (w1, Raise e)
      end.
Proof.
  induction pre as [|[idx t] pre IH]; intros post results w.
  - reflexivity.
  - cbn [app]. rewrite !process_loop_cons. apply IH.
Qed.

(** A successful entry carries the file name of its target. *)
Lemma process_target_original ref_image session idx target_file w entry :
  snd (process_target ref_image session idx target_file w) = Return entry ->
  entry_original entry = filename target_file.
Proof.
  unfold process_target.
  repeat (unfold io_bind at 1;
          match goal with
          | |- context [match ?m ?w0 with (_, _) => _ end] =>
              destruct (m w0) as [? [?|?]]
          | |- context [match ?o with Some _ => _ | None => _ end] => destruct o
          | |- context [if ?b then _ else _] => destruct b
          end; cbn [snd]; try discriminate).
  all: try (unfold io_raise; cbn [snd]; discriminate).
  match goal with |- context [if ?b then _ else _] => destruct b end;
    [unfold io_raise; cbn [snd]; discriminate|].
  unfold try_except, lift, io_ret, io_raise.
  match goal with |- context [Image_open ?fs ?p] => destruct (Image_open fs p) end;
    cbn [snd]; intros H; [injection H as <-; reflexivity | discriminate].
Qed.

Lemma process_loop_originals ref_image session ts :
  forall results w, exists w' new,
    process_loop ref_image session ts results w = (w', Return (results ++ new)) /\
    map entry_original new = map (fun p => filename (snd p)) ts.
Proof.
  induction ts as [|[idx t] ts IH]; intros results w.
  - exists w, []. rewrite app_nil_r. split; reflexivity.
  - rewrite process_loop_cons.
    destruct (IH (results ++ [entry_of t (snd (process_target ref_image session idx t w))])
                 (fst (process_target ref_image session idx t w)))
      as (w' & new & Hrun & Hmap).
    exists w', (entry_of t (snd (process_target ref_image session idx t w)) :: new).
    rewrite Hrun, <- app_assoc. split; [reflexivity|].
    cbn [map snd]. rewrite Hmap. f_equal.
    destruct (snd (process_target ref_image session idx t w)) as [entry|e] eqn:E.
    + apply (process_target_original _ _ _ _ _ _ E).
    + reflexivity.
Qed.

Lemma enumerate_from_filenames (targets : list UploadFile) :
  forall s, map (fun p => filename (snd p)) (enumerate_from s targets) = map filename targets.
Proof.
  induction targets as [|t ts IH]; intros s; [reflexivity|].
  cbn. rewrite IH. reflexivity.
Qed.

Lemma url_or_error (l : list result_entry) :
  (List.length (filter has_url l) + List.length (filter has_error l))%nat = List.length l.
Proof.
  induction l as [|[o out u | o e] l IH]; cbn; lia.
Qed.

Lemma initialize_models_ok (w : world) :
  models_loaded w = true \/ load_sam = Return tt ->
  exists w1, initialize_models w = (w1, Return tt) /\ files w1 = files w.
Proof.
  intros H. unfold initialize_models.
  destruct (models_loaded w) eqn:Hm.
  - exists w. split; reflexivity.
  - destruct H as [H | H]; [discriminate|]. rewrite H.
    eexists. split; reflexivity.
Qed.

(** A request with at most one target whose reference image decodes is
    answered with the list of entries and the two counts. *)
Lemma process_images_admitted reference targets sid w ref_image :
  (List.length targets <= 1)%nat ->
  models_loaded w = true \/ load_sam = Return tt ->
  Image_open_bytes (content reference) = Return ref_image ->
  exists w' resp,
    process_images reference targets sid w = (w', Return resp) /\
    success resp = true /\
    map entry_original (results resp) = map filename targets /\
    processed resp = List.length (filter has_url (results resp)) /\
    failed resp = List.length (filter has_error (results resp)) /\
    (processed resp + failed resp)%nat = List.length targets.
Proof.
  intros Hlen Hmodels Href. unfold process_images.
  replace (1 <? List.length targets)%nat with false by (symmetry; apply Nat.ltb_ge; lia).
  unfold io_bind at 1.
  set (pick := match sid with None => draw_uuid | Some s => io_ret s end).
  assert (Hpick : exists w0 s, pick w = (w0, Return s) /\ models_loaded w0 = models_loaded w).
  { subst pick. destruct sid; eexists; eexists; split; reflexivity. }
  destruct Hpick as (w0 & s & -> & Hm0).
  unfold try_except, io_bind at 1.
  destruct (initialize_models_ok w0) as (w1 & -> & _); [rewrite Hm0; assumption|].
  unfold io_bind at 1, lift at 1. rewrite Href.
  unfold io_bind at 1.
  destruct (process_loop_originals ref_image s (enumerate targets) [] w1)
    as (w' & new & -> & Hmap).
  cbn [app]. unfold io_ret. eexists. eexists. split; [reflexivity|].
  cbn [success results processed failed].
  unfold enumerate in Hmap. rewrite enumerate_from_filenames in Hmap.
  repeat split; try assumption.
  rewrite url_or_error. rewrite <- (length_map entry_original), Hmap, length_map.
  reflexivity.
Qed.

(** Past the check on the number of targets, the endpoint raises only
    through its outer handler. *)
Lemma process_images_raises reference targets sid w e :
  (List.length targets <= 1)%nat ->
  snd (process_images reference targets sid w) = Raise e ->
  exists msg, e = HTTPException 500 ("Processing failed: " ++ msg).
Proof.
  intros Hlen. unfold process_images.
  replace (1 <? List.length targets)%nat with false by (symmetry; apply Nat.ltb_ge; lia).
  unfold io_bind at 1.
  destruct (match sid with None => draw_uuid | Some s => io_ret s end w) as [w0 [s|e0]] eqn:Hs.
  - unfold try_except.
    match goal with |- context [match ?m with (_, _) => _ end] =>
      destruct m as [w1 [resp|e1]] end; cbn [snd].
    + discriminate.
    + unfold io_raise. cbn [snd]. intros H. injection H as <-. eexists. reflexivity.
  - destruct sid; unfold draw_uuid, io_ret in Hs; discriminate.
Qed.

Lemma process_target_no_match ref_image session idx target_file w target_image w1 masks :
  Image_open_bytes (content target_file) = Return target_image ->
  segment_image target_image (session ++ "_" ++ str_of_nat idx) w = (w1, Return masks) ->
  find_matching_face target_image ref_image = Return None ->
  process_target ref_image session idx target_file w =
    (w1, Raise (ValueError "No matching face found")).
Proof.
  intros Hdec Hseg Hface. unfold process_target.
  unfold io_bind at 1, lift at 1. rewrite Hdec.
  unfold io_bind at 1. rewrite Hseg.
  unfold io_bind at 1, lift at 1. rewrite Hface. reflexivity.
Qed.

Lemma process_target_select_raises
      ref_image session idx target_file w target_image w1 masks face e :
  Image_open_bytes (content target_file) = Return target_image ->
  segment_image target_image (session ++ "_" ++ str_of_nat idx) w = (w1, Return masks) ->
  find_matching_face target_image ref_image = Return (Some face) ->
  select_best_mask (files w1) face (session ++ "_" ++ str_of_nat idx) masks = Raise e ->
  process_target ref_image session idx target_file w = (w1, Raise e).
Proof.
  intros Hdec Hseg Hface Hsel. unfold process_target.
  unfold io_bind at 1, lift at 1. rewrite Hdec.
  unfold io_bind at 1. rewrite Hseg.
  unfold io_bind at 1, lift at 1. rewrite Hface.
  unfold io_bind at 1, get_files.
  unfold io_bind at 1, lift at 1. rewrite Hsel. reflexivity.
Qed.

(** C4. When no candidate qualifies at tier 1 and none is positive at
    the centre of the face, [select_best_mask] raises "No masks overlap
    with the detected face", whatever the number of candidates, also for
    an empty list; in the loop of the endpoint the error becomes the
    entry of that image and the loop goes on with the remaining
    images. *)
Theorem select_best_mask_no_overlap fs face sid masks :
  (forall j md, nth_error masks j = Some md ->
                ~ qualifies_tier1 fs face sid j /\ ~ center_hit fs face sid j) ->
  select_best_mask fs face sid masks =
    Raise (ValueError "No masks overlap with the detected face") /\
  select_best_mask fs face sid [] =
    Raise (ValueError "No masks overlap with the detected face") /\
  (forall ref_image session idx target_file rest results w w1 target_image,
      sid = (session ++ "_" ++ str_of_nat idx)%string ->
      Image_open_bytes (content target_file) = Return target_image ->
      segment_image target_image sid w = (w1, Return masks) ->
      files w1 = fs ->
      find_matching_face target_image ref_image = Return (Some face) ->
      process_loop ref_image session ((idx, target_file) :: rest) results w =
        process_loop ref_image session rest
          (results ++ [Failed (filename target_file)
                              "No masks overlap with the detected face"]) w1).
Proof.
  intros Hnone.
  assert (Hsel : select_best_mask fs face sid masks = Raise no_overlap_error).
  { apply select_best_mask_none_kept; intros j md Hj; destruct (Hnone j md Hj) as [H1 H2].
    - destruct (tier1_okb fs face sid j) eqn:E; [|reflexivity].
      apply tier1_okb_iff in E. contradiction.
    - destruct (center_hitb fs face sid j) eqn:E; [|reflexivity].
      apply center_hitb_iff in E. contradiction. }
  split; [exact Hsel|]. split.
  - apply select_best_mask_none_kept; intros j md Hj; destruct j; discriminate.
  - intros ref_image session idx target_file rest results w w1 target_image
           -> Hdec Hseg Hfs Hface.
    rewrite process_loop_cons. rewrite <- Hfs in Hsel.
    rewrite (process_target_select_raises _ _ _ _ _ _ _ _ _ _ Hdec Hseg Hface Hsel).
    reflexivity.
Qed.

(** C7 (amended). The loop of the endpoint, on any number of
    targets, turns what the pipeline of image i returned or raised into
    the entry of image i and goes on with image i+1; an image without a
    match of the reference face raises "No matching face found" inside
    the loop. A request that the endpoint admits (at most one target)
    is answered with the full list of entries, one per target, and the
    counts of the processed and the failed ones; a request with three
    targets is refused with status 400 and no image is processed. *)
Theorem process_images_per_image_errors :
  (forall ref_image session pre idx t post results w,
      exists w1 es1 w3 es3,
        let r := process_target ref_image session idx t w1 in
        process_loop ref_image session pre results w = (w1, Return (results ++ es1)) /\
        List.length es1 = List.length pre /\
        process_loop ref_image session post (results ++ es1 ++ [entry_of t (snd r)]) (fst r)
          = (w3, Return ((results ++ es1 ++ [entry_of t (snd r)]) ++ es3)) /\
        List.length es3 = List.length post /\
        process_loop ref_image session (pre ++ (idx, t) :: post) results w
          = (w3, Return (results ++ es1 ++ entry_of t (snd r) :: es3)) /\
        (forall e, snd r = Raise e -> entry_of t (snd r) = Failed (filename t) (str e))) /\
  (forall ref_image session idx t w target_image w1 masks,
      Image_open_bytes (content t) = Return target_image ->
      segment_image target_image (session ++ "_" ++ str_of_nat idx) w = (w1, Return masks) ->
      find_matching_face target_image ref_image = Return None ->
      process_target ref_image session idx t w =
        (w1, Raise (ValueError "No matching face found"))) /\
  (forall reference targets sid w ref_image,
      (List.length targets <= 1)%nat ->
      models_loaded w = true \/ load_sam = Return tt ->
      Image_open_bytes (content reference) = Return ref_image ->
      exists w' resp,
        process_images reference targets sid w = (w', Return resp) /\
        success resp = true /\
        map entry_original (results resp) = map filename targets /\
        processed resp = List.length (filter has_url (results resp)) /\
        failed resp = List.length (filter has_error (results resp)) /\
        (processed resp + failed resp)%nat = List.length targets) /\
  (forall reference t1 t2 t3 sid w,
      process_images reference [t1; t2; t3] sid w =
        (w, Raise (HTTPException 400 "Maximum 1 target image allowed"))).
Proof.
  split; [|split; [|split]].
  - intros ref_image session pre idx t post results w.
    destruct (process_loop_total ref_image session pre results w)
      as (w1 & es1 & Hpre & Hlen1).
    set (r := process_target ref_image session idx t w1).
    destruct (process_loop_total ref_image session post
                (results ++ es1 ++ [entry_of t (snd r)]) (fst r))
      as (w3 & es3 & Hpost & Hlen3).
    exists w1, es1, w3, es3. cbv zeta. fold r.
    split; [assumption|]. split; [assumption|]. split; [assumption|].
    split; [assumption|]. split.
    + rewrite process_loop_app, Hpre, process_loop_cons. fold r.
      rewrite <- !app_assoc. rewrite <- !app_assoc in Hpost.
      rewrite Hpost. reflexivity.
    + intros e ->. reflexivity.
  - intros ref_image session idx t w target_image w1 masks.
    apply process_target_no_match.
  - intros reference targets sid w ref_image. apply process_images_admitted.
  - reflexivity.
Qed.

(** C8. A request with more than one target is refused with status 400,
    "Maximum 1 target image allowed", with the world left as it was: no
    stage has run. A request with exactly one target passes this check:
    it is never answered with that error, and it is answered with one
    entry when the models load and the reference image decodes. *)
Theorem process_images_target_limit reference targets sid w :
  ((1 < List.length targets)%nat ->
   process_images reference targets sid w =
     (w, Raise (HTTPException 400 "Maximum 1 target image allowed"))) /\
  (List.length targets = 1%nat ->
   snd (process_images reference targets sid w)
     <> Raise (HTTPException 400 "Maximum 1 target image allowed") /\
   (models_loaded w = true \/ load_sam = Return tt ->
    forall ref_image,
      Image_open_bytes (content reference) = Return ref_image ->
      exists w' resp,
        process_images reference targets sid w = (w', Return resp) /\
        List.length (results resp) = 1%nat)).
Proof.
  split.
  - intros Hlen. unfold process_images.
    replace (1 <? List.length targets)%nat with true by (symmetry; apply Nat.ltb_lt; lia).
    reflexivity.
  - intros Hlen. split.
    + intros Hr.
      destruct (process_images_raises reference targets sid w _ ltac:(lia) Hr) as (msg & Hm).
      discriminate.
    + intros Hmodels ref_image Href.
      destruct (process_images_admitted reference targets sid w ref_image
                  ltac:(lia) Hmodels Href)
        as (w' & resp & Hrun & _ & Hmap & _).
      exists w', resp. split; [assumption|].
      rewrite <- (length_map entry_original), Hmap, length_map. assumption.
Qed.

End Endpoint.

Lemma select_best_mask_no_overlap_witness :
  snd (@process_loop Sample.externals Sample.reference_photo "S"
         [(0%nat, Sample.upload "f.jpg" "far")] [] Sample.empty_world)
  = Return [Failed "f.jpg" "No masks overlap with the detected face"].
Proof.
  pose (w1 := fst (@segment_image Sample.externals Sample.photo_far_face "S_0"
                     Sample.empty_world)).
  pose (face := {| bb_top := 10; bb_right := 14; bb_bottom := 14; bb_left := 10;
                   bb_distance := 0 # 10 |}).
  destruct (@select_best_mask_no_overlap Sample.externals (files w1) face "S_0"
              [Sample.full_mask]) as (_ & _ & Hloop).
  - intros j md Hj. rewrite <- tier1_okb_iff, <- center_hitb_iff.
    destruct j as [|j]; [split; vm_compute; discriminate|].
    destruct j; discriminate.
  - rewrite (Hloop Sample.reference_photo "S" 0%nat (Sample.upload "f.jpg" "far") []
               [] Sample.empty_world w1 Sample.photo_far_face
               eq_refl eq_refl eq_refl eq_refl eq_refl).
    reflexivity.
Defined.

(** C7 as the specification states it. Three targets, the second one without a match of the
    reference face: the endpoint answers with status 400 and returns no
    entry for the first and the third. *)
Lemma process_images_batch_of_three_counterexample :
  @find_matching_face Sample.externals Sample.photo_stranger Sample.reference_photo
    = Return None /\
  snd (@process_images Sample.externals (Sample.upload "r.jpg" "ref")
         [Sample.upload "a.jpg" "a"; Sample.upload "s.jpg" "stranger";
          Sample.upload "b.jpg" "a"] None Sample.empty_world)
    = Raise (HTTPException 400 "Maximum 1 target image allowed") /\
  forall resp,
    snd (@process_images Sample.externals (Sample.upload "r.jpg" "ref")
           [Sample.upload "a.jpg" "a"; Sample.upload "s.jpg" "stranger";
            Sample.upload "b.jpg" "a"] None Sample.empty_world)
    <> Return resp.
Proof.
  split; [reflexivity|]. split; [reflexivity|]. intros resp. discriminate.
Qed.

Lemma process_images_per_image_errors_witness :
  @process_target Sample.externals Sample.reference_photo "S" 0
    (Sample.upload "s.jpg" "stranger") Sample.empty_world
  = (fst (@segment_image Sample.externals Sample.photo_stranger "S_0" Sample.empty_world),
     Raise (ValueError "No matching face found")) /\
  exists w' resp,
    @process_images Sample.externals (Sample.upload "r.jpg" "ref")
      [Sample.upload "s.jpg" "stranger"] (Some "S") Sample.empty_world = (w', Return resp) /\
    success resp = true /\
    map entry_original (results resp) = ["s.jpg"] /\
    processed resp = List.length (filter has_url (results resp)) /\
    failed resp = List.length (filter has_error (results resp)) /\
    (processed resp + failed resp)%nat = 1%nat.
Proof.
  destruct (@process_images_per_image_errors Sample.externals) as (_ & Hmatch & Hadm & _).
  split.
  - apply (Hmatch Sample.reference_photo "S" 0%nat (Sample.upload "s.jpg" "stranger")
             Sample.empty_world Sample.photo_stranger _ [Sample.full_mask]);
      reflexivity.
  - apply (Hadm (Sample.upload "r.jpg" "ref") [Sample.upload "s.jpg" "stranger"] (Some "S")
             Sample.empty_world Sample.reference_photo).
    + simpl. lia.
    + right. reflexivity.
    + reflexivity.
Defined.

Lemma process_images_target_limit_witness :
  @process_images Sample.externals (Sample.upload "r.jpg" "ref")
    [Sample.upload "a.jpg" "a"; Sample.upload "b.jpg" "a"] None Sample.empty_world
  = (Sample.empty_world, Raise (HTTPException 400 "Maximum 1 target image allowed")) /\
  exists w' resp,
    @process_images Sample.externals (Sample.upload "r.jpg" "ref")
      [Sample.upload "a.jpg" "a"] None Sample.empty_world = (w', Return resp) /\
    List.length (results resp) = 1%nat.
Proof.
  split.
  - apply (proj1 (@process_images_target_limit Sample.externals (Sample.upload "r.jpg" "ref")
                    [Sample.upload "a.jpg" "a"; Sample.upload "b.jpg" "a"] None
                    Sample.empty_world)).
    simpl. lia.
  - apply (proj2 (proj2 (@process_images_target_limit Sample.externals
                           (Sample.upload "r.jpg" "ref") [Sample.upload "a.jpg" "a"] None
                           Sample.empty_world) eq_refl) (or_intror eq_refl)
                 Sample.reference_photo eq_refl).
Defined.

(** ** Runs on the sample instance *)

(** The example of the specification: areas 500, 1000 and 2000 with
    overlaps of 15%, 12% and 5% select the candidate of area 1000. *)
Example select_best_mask_three_masks :
  select_best_mask Sample.three_files Sample.face_10 "s" Sample.three_masks = Return 1%nat.
Proof. reflexivity. Qed.

Example overlap_count_three_masks :
  map (overlap_count Sample.face_10)
      [Sample.raster_with 15; Sample.raster_with 12; Sample.raster_with 5] = [15; 12; 5].
Proof. reflexivity. Qed.

(** Of the two candidates positive at the centre the larger one is taken;
    the largest candidate of all is not positive there. *)
Example select_best_mask_center_fallback :
  select_best_mask Sample.center_files Sample.face_10 "c" Sample.center_masks = Return 1%nat.
Proof. reflexivity. Qed.

Example select_best_mask_far_face :
  select_best_mask Sample.center_files Sample.far_face "c" Sample.center_masks
  = Raise (ValueError "No masks overlap with the detected face").
Proof. reflexivity. Qed.

(** The first face within the threshold is returned (distance 0.5) although
    the third face is closer (distance 0.1). *)
Example find_matching_face_crowd :
  @face_distance Sample.externals [90; 55; 51] 50 = [40 # 10; 5 # 10; 1 # 10]%Q /\
  @find_matching_face Sample.externals Sample.photo_crowd Sample.reference_photo
  = Return (Some (face_of (0, 4, 2, 2) (5 # 10))).
Proof. split; reflexivity. Qed.

Example find_matching_face_no_reference_face :
  @find_matching_face Sample.externals Sample.photo_crowd Sample.photo_empty
  = Raise (ValueError "No faces found in query image").
Proof. reflexivity. Qed.

(** The loop on four targets: one success, then three failures of three
    different stages, each recorded for its own image. *)
Example process_loop_four_targets :
  snd (@process_loop Sample.externals Sample.reference_photo "S"
         (enumerate [Sample.upload "a.jpg" "a"; Sample.upload "s.jpg" "stranger";
                     Sample.upload "f.jpg" "far"; Sample.upload "x.jpg" "x"])
         [] Sample.empty_world)
  = Return [Processed "a.jpg" "S_0_uuid0.jpg" "/outputs/S_0_uuid0.jpg";
            Failed "s.jpg" "No matching face found";
            Failed "f.jpg" "No masks overlap with the detected face";
            Failed "x.jpg" "cannot identify image file"].
Proof. reflexivity. Qed.

Example process_images_one_target :
  snd (@process_images Sample.externals (Sample.upload "r.jpg" "ref")
         [Sample.upload "a.jpg" "a"] None Sample.empty_world)
  = Return {| success := true; session_id := "uuid0";
              results := [Processed "a.jpg" "uuid0_0_uuid1.jpg" "/outputs/uuid0_0_uuid1.jpg"];
              processed := 1; failed := 0 |}.
Proof. reflexivity. Qed.

(** ** Paths of the mask files *)

Lemma string_length_append (s t : string) :
  String.length (s ++ t) = (String.length s + String.length t)%nat.
Proof. induction s as [|c s IH]; cbn; [reflexivity | rewrite IH; reflexivity]. Qed.

Lemma string_append_inj_l (s a b : string) : (s ++ a = s ++ b)%string -> a = b.
Proof.
  induction s as [|c s IH]; cbn; intros H; [assumption|].
  injection H as H. apply IH. assumption.
Qed.

Lemma string_append_inj_r (t : string) :
  forall a b : string, (a ++ t = b ++ t)%string -> a = b.
Proof.
  induction a as [|c a IH]; intros b H.
  - destruct b as [|d b]; [reflexivity|]. exfalso.
    apply (f_equal String.length) in H. cbn in H.
    rewrite string_length_append in H. lia.
  - destruct b as [|d b].
    + exfalso. apply (f_equal String.length) in H. cbn in H.
      rewrite string_length_append in H. lia.
    + cbn in H. injection H as -> H. f_equal. apply IH. assumption.
Qed.

Lemma to_uint_not_nil (n : nat) : Nat.to_uint n <> Decimal.Nil.
Proof.
  intros Hn. pose proof (f_equal Nat.of_uint Hn) as H0.
  rewrite DecimalNat.Unsigned.of_to in H0. cbn in H0. subst n. discriminate.
Qed.

(** [str(i)] determines [i]. *)
Lemma str_of_nat_inj (i j : nat) : str_of_nat i = str_of_nat j -> i = j.
Proof.
  unfold str_of_nat. intros H.
  pose proof to_uint_not_nil as Hnz.
  apply DecimalNat.Unsigned.to_uint_inj.
  pose proof (NilZero.usu _ (Hnz i)) as Hi. pose proof (NilZero.usu _ (Hnz j)) as Hj.
  rewrite H in Hi. congruence.
Qed.

(** The decimal writing of a number does not start with the letter m. *)
Lemma str_of_nat_not_m (i : nat) (s : string) : str_of_nat i <> ("m" ++ s)%string.
Proof.
  unfold str_of_nat. intros H.
  pose proof (NilZero.usu _ (to_uint_not_nil i)) as Hu. rewrite H in Hu.
  cbn in Hu. destruct (NilEmpty.uint_of_string s); discriminate.
Qed.

Lemma mask_path_inj (sid : string) (i j : nat) :
  mask_path sid i = mask_path sid j -> i = j.
Proof.
  unfold mask_path, path_join. intros H.
  apply string_append_inj_l in H. apply string_append_inj_l in H.
  apply string_append_inj_l in H. apply string_append_inj_r in H.
  apply str_of_nat_inj. assumption.
Qed.

Lemma mask_path_not_metadata (sid : string) (i : nat) :
  mask_path sid i <> path_join (path_join MASK_DIR sid) "mask_metadata.txt".
Proof.
  unfold mask_path, path_join. intros H.
  apply string_append_inj_l in H. apply string_append_inj_l in H.
  change (("mask_" ++ (str_of_nat i ++ ".png")) = ("mask_" ++ "metadata.txt"))%string in H.
  apply string_append_inj_l in H.
  destruct (str_of_nat i) as [|c s] eqn:E.
  - cbn in H. discriminate.
  - cbn in H. injection H as -> _. apply (str_of_nat_not_m i s). assumption.
Qed.

Lemma lookup_write_same (fs : filesystem) (path : string) (f : file) :
  lookup ((path, f) :: fs) path = Some f.
Proof. cbn. rewrite String.eqb_refl. reflexivity. Qed.

Lemma lookup_write_other (fs : filesystem) (path path' : string) (f : file) :
  path <> path' -> lookup ((path, f) :: fs) path' = lookup fs path'.
Proof. intros H. cbn. apply String.eqb_neq in H. rewrite H. reflexivity. Qed.

(** ** The segmenter adapter *)

Section Segmenter.

Context {X : Externals}.

(** The files after the masks are saved: a path that is not a mask path
  of the session is left as it was, and a mask path holds the new raster
  when its write went through and its former content otherwise. *)
Lemma save_masks_files (sid : string) (l : list mask_data) :
forall s w, exists w',
  save_masks sid (enumerate_from s l) w = (w', Return tt) /\
  models_loaded w' = models_loaded w /\
  uuids_drawn w' = uuids_drawn w /\
  (forall p, (forall i, (s <= i < s + List.length l)%nat -> p <> mask_path sid i) ->
             lookup (files w') p = lookup (files w) p) /\
  (forall i md, (s <= i)%nat -> nth_error l (i - s) = Some md ->
                lookup (files w') (mask_path sid i) =
                  if disk_ok (mask_path sid i)
                  then Some (GrayPng (mask_uint8 (segmentation md)))
                  else lookup (files w) (mask_path sid i)).
Proof.
induction l as [|md0 l IH]; intros s w.
- exists w. cbn. repeat split; try reflexivity.
  intros i md _ H. destruct (i - s)%nat; discriminate.
- cbn [enumerate_from save_masks]. unfold io_bind at 1, cv2_imwrite.
  set (w1 := if disk_ok (mask_path sid s)
             then write_file (mask_path sid s) (GrayPng (mask_uint8 (segmentation md0))) w
             else w).
  assert (Hstep : (if disk_ok (mask_path sid s)
                   then (write_file (mask_path sid s)
                           (GrayPng (mask_uint8 (segmentation md0))) w, Return true)
                   else (w, Return false)) =
                  (w1, Return (disk_ok (mask_path sid s)))).
  { subst w1. destruct (disk_ok (mask_path sid s)); reflexivity. }
  rewrite Hstep. clear Hstep.
  destruct (IH (S s) w1) as (w' & Hrun & Hm & Hu & Hframe & Hmask).
  exists w'. split; [exact Hrun|].
  assert (Hw1 : models_loaded w1 = models_loaded w /\ uuids_drawn w1 = uuids_drawn w).
  { subst w1. destruct (disk_ok (mask_path sid s)); split; reflexivity. }
  split; [rewrite Hm; apply Hw1|]. split; [rewrite Hu; apply Hw1|].
  assert (Hother : forall p, p <> mask_path sid s -> lookup (files w1) p = lookup (files w) p).
  { intros p Hp. subst w1. destruct (disk_ok (mask_path sid s)); [|reflexivity].
    cbn [write_file set_files files]. apply lookup_write_other. congruence. }
  split.
  + intros p Hp. rewrite Hframe.
    * apply Hother. apply Hp. cbn [List.length]. lia.
    * intros i Hi. apply Hp. cbn [List.length]. lia.
  + intros i md Hi Hnth. destruct (Nat.eq_dec i s) as [-> | Hne].
    * rewrite Nat.sub_diag in Hnth. cbn in Hnth. injection Hnth as <-.
      rewrite Hframe.
      -- subst w1. destruct (disk_ok (mask_path sid s)); [|reflexivity].
         cbn [write_file set_files files]. apply lookup_write_same.
      -- intros i Hi' Heq. apply mask_path_inj in Heq. lia.
    * replace (i - s)%nat with (S (i - S s)) in Hnth by lia. cbn [nth_error] in Hnth.
      rewrite (Hmask i md ltac:(lia) Hnth).
      destruct (disk_ok (mask_path sid i)); [reflexivity|].
      apply Hother. intros Heq. apply mask_path_inj in Heq. lia.
Qed.

(** What [segment_image] returns and leaves on the disk. *)
Lemma segment_image_files (im : image) (sid : string) (w : world) :
models_loaded w = true \/ load_sam = Return tt ->
disk_ok (path_join (path_join MASK_DIR sid) "mask_metadata.txt") = true ->
exists w',
  segment_image im sid w = (w', Return (generate im)) /\
  models_loaded w' = true /\
  forall i md,
    nth_error (generate im) i = Some md ->
    cv2_imread (files w') (mask_path sid i) =
      if disk_ok (mask_path sid i)
      then Some (mask_uint8 (segmentation md))
      else cv2_imread (files w) (mask_path sid i).
Proof.
intros Hmodels Hmeta. unfold segment_image. unfold io_bind at 1.
assert (Hinit : exists w0, initialize_models w = (w0, Return tt) /\
                           files w0 = files w /\ models_loaded w0 = true).
{ unfold initialize_models. destruct (models_loaded w) eqn:Hm.
  - exists w. repeat split; assumption.
  - destruct Hmodels as [H | H]; [discriminate|]. rewrite H.
    eexists. repeat split; reflexivity. }
destruct Hinit as (w0 & -> & Hf0 & Hm0).
unfold io_bind at 1.
destruct (save_masks_files sid (generate im) 0%nat w0)
  as (w1 & Hrun & Hm1 & _ & _ & Hmask).
unfold enumerate. rewrite Hrun.
unfold io_bind at 1, write_text. rewrite Hmeta. unfold io_ret.
eexists. split; [reflexivity|]. split.
- cbn [write_file set_files models_loaded]. congruence.
- intros i md Hnth. unfold cv2_imread. cbn [write_file set_files files].
  rewrite lookup_write_other
    by (intros Heq; symmetry in Heq; apply (mask_path_not_metadata sid i Heq)).
  rewrite (Hmask i md ltac:(lia)) by (rewrite Nat.sub_0_r; assumption).
  rewrite Hf0. destruct (disk_ok (mask_path sid i)); reflexivity.
Qed.

(** X2. Once the model is available and the metadata file can be written,
  [segment_image] returns the masks of the generator unchanged; a mask
  whose file was written reads back as the 0/255 raster of its
  segmentation, and a mask whose write failed leaves the file as it was
  without failing the segmentation. *)
Theorem segment_image_read_back (im : image) (sid : string) (w : world) :
models_loaded w = true \/ load_sam = Return tt ->
disk_ok (path_join (path_join MASK_DIR sid) "mask_metadata.txt") = true ->
exists w',
  segment_image im sid w = (w', Return (generate im)) /\
  (forall i md,
      nth_error (generate im) i = Some md ->
      disk_ok (mask_path sid i) = true ->
      cv2_imread (files w') (mask_path sid i) = Some (mask_uint8 (segmentation md))) /\
  (forall i md,
      nth_error (generate im) i = Some md ->
      disk_ok (mask_path sid i) = false ->
      cv2_imread (files w') (mask_path sid i) = cv2_imread (files w) (mask_path sid i)).
Proof.
intros Hmodels Hmeta.
destruct (segment_image_files im sid w Hmodels Hmeta) as (w' & Hrun & _ & Hread).
exists w'. split; [exact Hrun|].
split; intros i md Hi Hok; rewrite (Hread i md Hi), Hok; reflexivity.
Qed.

End Segmenter.

(** ** The raster of a segmentation *)

Lemma pixel_mask_uint8 (seg : list (list bool)) (y x : nat) :
  pixel (mask_uint8 seg) (Z.of_nat y) (Z.of_nat x) =
    if segmentation_at seg y x then 255 else 0.
Proof.
  unfold pixel, mask_uint8, segmentation_at. rewrite !Nat2Z.id.
  set (g := fun b : bool => if b then 255 else 0).
  assert (Hrow : nth y (map (map g) seg) [] = map g (nth y seg []))
    by exact (map_nth (map g) seg [] y).
  rewrite Hrow. exact (map_nth g (nth y seg []) false x).
Qed.

Lemma shape_mask_uint8 (seg : list (list bool)) :
  shape (mask_uint8 seg) =
    (Z.of_nat (List.length seg), Z.of_nat (List.length (hd [] seg))).
Proof.
  unfold shape, mask_uint8. rewrite length_map. f_equal.
  destruct seg as [|row seg]; cbn; [reflexivity | rewrite length_map; reflexivity].
Qed.

Lemma overlap_count_of_segmentation (face : face_bbox) (seg : list (list bool)) :
  overlap_count face (mask_uint8 seg) = Z.of_nat (List.length (true_cells face seg)).
Proof.
  rewrite overlap_count_positive_pixels. unfold positive_pixels, true_cells.
  rewrite shape_mask_uint8. cbv zeta. f_equal. f_equal.
  apply filter_ext. intros [y x]. cbn [fst snd]. rewrite pixel_mask_uint8.
  destruct (segmentation_at seg y x); reflexivity.
Qed.

(** X3. The raster saved for a segmentation is positive exactly at the
    cells where the segmentation is true, and the overlap that the selector
    counts on it is the number of cells of the segmentation that are true
    inside the clamped face rectangle. *)
Theorem overlap_count_mask_uint8 (face : face_bbox) (seg : list (list bool)) :
  (forall y x, pixel (mask_uint8 seg) (Z.of_nat y) (Z.of_nat x) > 0 <->
               segmentation_at seg y x = true) /\
  overlap_count face (mask_uint8 seg) = Z.of_nat (List.length (true_cells face seg)).
Proof.
  split.
  - intros y x. rewrite pixel_mask_uint8.
    destruct (segmentation_at seg y x); split; intros H;
      try reflexivity; try lia; try discriminate.
  - apply overlap_count_of_segmentation.
Qed.

(** X4. The count that the selector takes on the cropped raster,
    [np.count_nonzero(mask_image[top:bottom, left:right])] with the clamped
    bounds, is the number of coordinates (row, column) inside the clamped
    rectangle at which the raster is not zero. *)
Theorem overlap_count_pixelwise (face : face_bbox) (r : raster) :
  overlap_count face r = Z.of_nat (List.length (positive_pixels face r)) /\
  forall y x,
    In (y, x) (positive_pixels face r) <->
    Z.max 0 (bb_top face) <= Z.of_nat y < Z.min (fst (shape r)) (bb_bottom face) /\
    Z.max 0 (bb_left face) <= Z.of_nat x < Z.min (snd (shape r)) (bb_right face) /\
    pixel r (Z.of_nat y) (Z.of_nat x) <> 0.
Proof.
  split; [apply overlap_count_positive_pixels|].
  intros y x. unfold positive_pixels. destruct (shape r) as [h w]. cbn [fst snd].
  rewrite filter_In, in_prod_iff, !in_seq. cbn [fst snd].
  rewrite negb_true_iff, Z.eqb_neq. split.
  - intros [[Hy Hx] Hp]. repeat split; try assumption; lia.
  - intros [Hy [Hx Hp]]. repeat split; try assumption; lia.
Qed.

(** ** Bounds on the overlap *)

Lemma overlap_count_nonneg (face : face_bbox) (r : raster) : 0 <= overlap_count face r.
Proof.
  unfold overlap_count. destruct (shape r). apply count_nonzero_nonneg.
Qed.

Lemma overlap_count_le_face_area (face : face_bbox) (r : raster) :
  overlap_count face r = 0 \/ (0 < face_area face /\ overlap_count face r <= face_area face).
Proof.
  rewrite overlap_count_positive_pixels. unfold positive_pixels, face_area.
  destruct (shape r) as [h w].
  set (ct := Z.max 0 (bb_top face)). set (cb := Z.min h (bb_bottom face)).
  set (cl := Z.max 0 (bb_left face)). set (cr := Z.min w (bb_right face)).
  destruct (Z_le_gt_dec cb ct) as [Hr | Hr].
  - left. replace (Z.to_nat (cb - ct)) with 0%nat by lia. reflexivity.
  - destruct (Z_le_gt_dec cr cl) as [Hc | Hc].
    + left. replace (Z.to_nat (cr - cl)) with 0%nat by lia.
      induction (seq (Z.to_nat ct) (Z.to_nat (cb - ct))); [reflexivity | assumption].
    + right. split; [subst ct cb cl cr; nia|].
      match goal with |- Z.of_nat (List.length (filter ?f ?l)) <= _ =>
        pose proof (filter_length_le f l) as Hle;
        assert (Hlen : List.length l = (Z.to_nat (cb - ct) * Z.to_nat (cr - cl))%nat)
          by (rewrite length_prod, !length_seq; reflexivity)
      end.
      rewrite Hlen in Hle.
      apply Z.le_trans with (Z.of_nat (Z.to_nat (cb - ct) * Z.to_nat (cr - cl))); [lia|].
      rewrite Nat2Z.inj_mul, !Z2Nat.id by lia.
      subst ct cb cl cr. nia.
Qed.

Lemma overlap_pct_eq (face : face_bbox) (r : raster) :
  0 < face_area face ->
  (overlap_pct face r == (100 * overlap_count face r) # Z.to_pos (face_area face))%Q.
Proof.
  intros Hfa. unfold overlap_pct.
  destruct (face_area face) as [|p|p] eqn:E; try lia.
  cbn [Z.to_pos]. symmetry. apply Qmake_Qdiv.
Qed.

(** The overlap percentage lies between 0 and 100, and it reaches the
    threshold of 10 exactly when the face area is positive and at most ten
    times the overlap count. *)
Lemma overlap_pct_bounds (face : face_bbox) (r : raster) :
  (0 <= overlap_pct face r)%Q /\ (overlap_pct face r <= 100)%Q /\
  ((10 <= overlap_pct face r)%Q <->
   0 < face_area face /\ face_area face <= 10 * overlap_count face r).
Proof.
  pose proof (overlap_count_nonneg face r) as Hnn.
  destruct (overlap_count_le_face_area face r) as [Hz | [Hfa Hle]].
  - assert (Hq : (overlap_pct face r == 0)%Q).
    { unfold overlap_pct. rewrite Hz. unfold Qdiv. apply Qmult_0_l. }
    rewrite Hq. split; [apply Qle_refl|]. split; [unfold Qle; cbn; lia|].
    split.
    + intros H. unfold Qle in H. cbn in H. lia.
    + intros [H1 H2]. lia.
  - rewrite (overlap_pct_eq face r Hfa). unfold Qle. cbn [Qnum Qden].
    rewrite Z2Pos.id by lia. split; [lia|]. split; [lia|]. split; [intros H; lia | intros [_ H]; lia].
Qed.

(** ** More on the mask selector *)

(** X5. Every entry that the first loop keeps records an overlap percentage
    between 10 and 100 and a pixel count between a tenth of the face area
    and the face area, the face area being positive. *)
Theorem tier1_loop_entries_bounds fs face sid ms :
  forall acc l,
    Forall (fun e => (10 <= overlap_percentage e)%Q /\ (overlap_percentage e <= 100)%Q /\
                     0 < face_area face /\
                     face_area face <= 10 * overlap_pixels e /\
                     overlap_pixels e <= face_area face) acc ->
    tier1_loop fs face sid ms acc = Return l ->
    Forall (fun e => (10 <= overlap_percentage e)%Q /\ (overlap_percentage e <= 100)%Q /\
                     0 < face_area face /\
                     face_area face <= 10 * overlap_pixels e /\
                     overlap_pixels e <= face_area face) l.
Proof.
  induction ms as [|[i md] ms IH]; intros acc l Hacc Hrun.
  - cbn in Hrun. injection Hrun as <-. assumption.
  - cbn [tier1_loop] in Hrun.
    destruct (cv2_imread fs (mask_path sid i)) as [r|] eqn:Hr; [|apply (IH acc l Hacc Hrun)].
    pose proof (overlap_pct_bounds face r) as (_ & Hle100 & Hiff).
    pose proof (overlap_count_le_face_area face r) as Hcount.
    unfold overlap_pct, overlap_count in *.
    destruct (shape r) as [h w] eqn:Hs.
    set (ct := Z.max 0 (bb_top face)) in *. set (cb := Z.min h (bb_bottom face)) in *.
    set (cl := Z.max 0 (bb_left face)) in *. set (cr := Z.min w (bb_right face)) in *.
    destruct ((ct >=? cb) || (cl >=? cr)) eqn:Hempty; [apply (IH acc l Hacc Hrun)|].
    assert (Hfa : face_area face > 0).
    { unfold face_area. subst ct cb cl cr. nia. }
    replace (face_area face >? 0) with true in Hrun by lia.
    unfold truediv in Hrun. replace (face_area face =? 0) with false in Hrun by lia.
    cbn [bind] in Hrun.
    set (c := count_nonzero (crop ct cb cl cr r)) in *.
    assert (Hq : ((c # 1) / (face_area face # 1) * 100
                  == inject_Z (100 * c) / inject_Z (face_area face))%Q)
      by (apply pct_agree; assumption).
    destruct (Qle_bool 10 ((c # 1) / (face_area face # 1) * 100)) eqn:Hkeep;
      [|apply (IH acc l Hacc Hrun)].
    apply (IH _ l) in Hrun; [assumption|].
    apply Forall_app. split; [assumption|]. constructor; [|constructor].
    cbn [overlap_percentage overlap_pixels].
    apply Qle_bool_iff in Hkeep.
    split; [assumption|]. split; [rewrite Hq; assumption|].
    rewrite Hq in Hkeep. apply Hiff in Hkeep.
    destruct Hcount as [Hz | [_ Hc]]; lia.
Qed.

(** What [select_best_mask] returns: an index of the list whose raster
    loads and which passed one of the two tests, or the error of the case
    in which no candidate passed any. *)
Lemma select_best_mask_outcome fs face sid masks :
  (exists i md r,
      select_best_mask fs face sid masks = Return i /\
      nth_error masks i = Some md /\
      cv2_imread fs (mask_path sid i) = Some r /\
      (qualifies_tier1 fs face sid i \/ center_hit fs face sid i)) \/
  (select_best_mask fs face sid masks = Raise no_overlap_error /\
   forall j md, nth_error masks j = Some md ->
                ~ qualifies_tier1 fs face sid j /\ ~ center_hit fs face sid j).
Proof.
  destruct (filter (fun p => tier1_okb fs face sid (fst p)) (enumerate masks))
    as [|[j md] c] eqn:Hf1.
  - rewrite kept_nil_iff in Hf1.
    destruct (filter (fun p => center_hitb fs face sid (fst p)) (enumerate masks))
      as [|[j md] c] eqn:Hf2.
    + rewrite kept_nil_iff in Hf2. right.
      split; [apply select_best_mask_none_kept; assumption|].
      intros j md Hj. rewrite <- tier1_okb_iff, <- center_hitb_iff.
      rewrite (Hf1 j md Hj), (Hf2 j md Hj). split; discriminate.
    + left. assert (Hin : In (j, md) (filter (fun p => center_hitb fs face sid (fst p))
                                              (enumerate masks)))
        by (rewrite Hf2; left; reflexivity).
      apply filter_In in Hin. destruct Hin as [Hin Hok]. apply enumerate_In in Hin.
      destruct (select_best_mask_tier2_kept fs face sid masks Hf1)
        as (i & Hi & md' & Hnth & Hhit & _); [exists j, md; auto|].
      apply center_hitb_iff in Hhit. pose proof Hhit as (r & Hr & _).
      exists i, md', r. auto.
  - left. assert (Hin : In (j, md) (filter (fun p => tier1_okb fs face sid (fst p))
                                            (enumerate masks)))
      by (rewrite Hf1; left; reflexivity).
    apply filter_In in Hin. destruct Hin as [Hin Hok]. apply enumerate_In in Hin.
    destruct (select_best_mask_tier1_kept fs face sid masks)
      as (i & Hi & md' & Hnth & Hq & _); [exists j, md; auto|].
    apply tier1_okb_iff in Hq. pose proof Hq as (r & Hr & _).
    exists i, md', r. auto.
Qed.

(** X6. [select_best_mask] returns only the index of a candidate whose mask
    file loads and that passed the overlap test or the centre test, so the
    load of the selected mask that follows in the endpoint cannot fail; the
    only exception it raises is "No masks overlap with the detected face",
    and it raises it only when no candidate passes either test. *)
Theorem select_best_mask_returns_loadable fs face sid masks :
  (forall i, select_best_mask fs face sid masks = Return i ->
             (i < List.length masks)%nat /\
             (exists r, cv2_imread fs (mask_path sid i) = Some r) /\
             (qualifies_tier1 fs face sid i \/ center_hit fs face sid i)) /\
  (forall e, select_best_mask fs face sid masks = Raise e ->
             e = ValueError "No masks overlap with the detected face" /\
             forall j md, nth_error masks j = Some md ->
                          ~ qualifies_tier1 fs face sid j /\ ~ center_hit fs face sid j).
Proof.
  destruct (select_best_mask_outcome fs face sid masks)
    as [(i & md & r & Hsel & Hnth & Hr & Hpass) | [Hsel Hnone]]; rewrite Hsel; split.
  - intros i' H. injection H as <-. split; [apply nth_error_Some; congruence|].
    split; [exists r; assumption | assumption].
  - intros e H. discriminate.
  - intros i H. discriminate.
  - intros e H. injection H as <-. split; [reflexivity | assumption].
Qed.

Lemma tier1_loop_files fs fs' face sid ms :
  (forall i md, In (i, md) ms ->
                cv2_imread fs (mask_path sid i) = cv2_imread fs' (mask_path sid i)) ->
  forall acc, tier1_loop fs face sid ms acc = tier1_loop fs' face sid ms acc.
Proof.
  induction ms as [|[i md] ms IH]; intros Hsame acc; [reflexivity|].
  cbn [tier1_loop]. rewrite <- (Hsame i md (or_introl eq_refl)).
  assert (Hrest : forall acc', tier1_loop fs face sid ms acc' = tier1_loop fs' face sid ms acc').
  { apply IH. intros j mdj Hj. apply (Hsame j mdj). right. assumption. }
  destruct (cv2_imread fs (mask_path sid i)) as [r|]; [|apply Hrest].
  destruct (shape r) as [h w].
  destruct ((Z.max 0 (bb_top face) >=? Z.min h (bb_bottom face))
            || (Z.max 0 (bb_left face) >=? Z.min w (bb_right face))); [apply Hrest|].
  match goal with |- bind ?m _ = bind ?m _ => destruct m as [pct|e] end; [|reflexivity].
  cbn [bind]. destruct (Qle_bool 10 pct); apply Hrest.
Qed.

Lemma tier2_loop_files fs fs' face sid ms :
  (forall i md, In (i, md) ms ->
                cv2_imread fs (mask_path sid i) = cv2_imread fs' (mask_path sid i)) ->
  forall acc, tier2_loop fs face sid ms acc = tier2_loop fs' face sid ms acc.
Proof.
  induction ms as [|[i md] ms IH]; intros Hsame acc; [reflexivity|].
  cbn [tier2_loop]. rewrite <- (Hsame i md (or_introl eq_refl)).
  assert (Hrest : forall acc', tier2_loop fs face sid ms acc' = tier2_loop fs' face sid ms acc').
  { apply IH. intros j mdj Hj. apply (Hsame j mdj). right. assumption. }
  destruct (cv2_imread fs (mask_path sid i)) as [r|]; [|apply Hrest].
  destruct (shape r) as [h w].
  match goal with |- (if ?b then _ else _) = _ => destruct b end; [|apply Hrest].
  match goal with |- (if ?b then _ else _) = _ => destruct b end; apply Hrest.
Qed.

(** X7. The selection reads nothing but the mask files of its own session
    with an index below the number of candidates: on two file systems
    that agree on those files it gives the same result. *)
Theorem select_best_mask_own_files fs fs' face sid masks :
  (forall i, (i < List.length masks)%nat ->
             cv2_imread fs (mask_path sid i) = cv2_imread fs' (mask_path sid i)) ->
  select_best_mask fs face sid masks = select_best_mask fs' face sid masks.
Proof.
  intros Hsame.
  assert (Hin : forall i md, In (i, md) (enumerate masks) ->
                cv2_imread fs (mask_path sid i) = cv2_imread fs' (mask_path sid i)).
  { intros i md Hi. apply enumerate_In in Hi. apply Hsame.
    apply nth_error_Some. congruence. }
  unfold select_best_mask.
  rewrite (tier1_loop_files fs fs' face sid _ Hin), (tier2_loop_files fs fs' face sid _ Hin).
  reflexivity.
Qed.

(** ** More on the face matcher *)

Lemma first_match_some (locs : list location) :
  forall (dists : list Q) fb,
    first_match locs (map (fun d => Qle_bool d threshold) dists) dists = Some fb ->
    exists j loc d,
      nth_error locs j = Some loc /\ nth_error dists j = Some d /\
      (d <= threshold)%Q /\ fb = face_of loc d.
Proof.
  induction locs as [|[[[top rgt] bottom] lft] locs IH]; intros dists fb H; [discriminate|].
  destruct dists as [|d0 dists]; [discriminate|]. cbn [map first_match] in H.
  destruct (Qle_bool d0 threshold) eqn:E.
  - injection H as <-. exists 0%nat, (top, rgt, bottom, lft), d0.
    apply Qle_bool_iff in E. repeat split; assumption.
  - destruct (IH dists fb H) as (j & loc & d & Hj & Hd & Hle & Hfb).
    exists (S j), loc, d. repeat split; assumption.
Qed.

Section FaceMatcherSound.

Context {X : Externals}.

(** X9. A face returned by [find_matching_face] is one of the locations
  detected in the target image, with a distance of at most 0.6: the
  matcher never returns a face beyond the threshold and never a box of
  its own making. When it returns at all, the reference image has a
  detected face. *)
Theorem find_matching_face_sound (T Qimg : image) (fb : face_bbox) :
find_matching_face T Qimg = Return (Some fb) ->
face_locations Qimg <> [] /\
(bb_distance fb <= 6 # 10)%Q /\
exists j, nth_error (face_locations T) j
          = Some (bb_top fb, bb_right fb, bb_bottom fb, bb_left fb).
Proof.
unfold find_matching_face. intros H.
destruct (face_locations Qimg) as [|l0 ls] eqn:Hq; [discriminate|].
split; [discriminate|].
cbn [List.length Nat.eqb] in H.
destruct (largest_query_location (l0 :: ls)) as [kept|e]; [|discriminate].
cbn [bind] in H.
destruct (getitem (face_encodings Qimg kept) 0) as [qenc|e]; [|discriminate].
cbn [bind] in H. injection H as H.
apply first_match_some in H. destruct H as (j & loc & d & Hj & _ & Hle & ->).
destruct loc as [[[top rgt] bottom] lft]. cbn.
split; [assumption | exists j; assumption].
Qed.

End FaceMatcherSound.

(** ** Computations in [io] *)

Lemma io_bind_Return {A B : Type} (m : io A) (k : A -> io B) w w' b :
  io_bind m k w = (w', Return b) ->
  exists w1 a, m w = (w1, Return a) /\ k a w1 = (w', Return b).
Proof.
  unfold io_bind. destruct (m w) as [w1 [a|e]]; intros H; [|discriminate].
  exists w1, a. split; [reflexivity | assumption].
Qed.

Lemma keeps_loaded_bind {A B : Type} (m : io A) (k : A -> io B) :
  keeps_loaded m -> (forall a, keeps_loaded (k a)) -> keeps_loaded (io_bind m k).
Proof.
  intros Hm Hk w Hw. unfold io_bind. specialize (Hm w Hw).
  destruct (m w) as [w1 [a|e]]; cbn [fst] in *; [apply Hk; assumption | assumption].
Qed.

Lemma keeps_loaded_try {A : Type} (m : io A) (h : exn -> io A) :
  keeps_loaded m -> (forall e, keeps_loaded (h e)) -> keeps_loaded (try_except m h).
Proof.
  intros Hm Hh w Hw. unfold try_except. specialize (Hm w Hw).
  destruct (m w) as [w1 [a|e]]; cbn [fst] in *; [assumption | apply Hh; assumption].
Qed.

Lemma keeps_loaded_ret {A : Type} (a : A) : keeps_loaded (io_ret a).
Proof. intros w Hw. assumption. Qed.

Lemma keeps_loaded_raise {A : Type} (e : exn) : keeps_loaded (@io_raise A e).
Proof. intros w Hw. assumption. Qed.

Lemma keeps_loaded_lift {A : Type} (r : result A) : keeps_loaded (lift r).
Proof. intros w Hw. assumption. Qed.

Lemma keeps_loaded_get_files : keeps_loaded get_files.
Proof. intros w Hw. assumption. Qed.

Lemma keeps_loaded_rmtree (dir : string) : keeps_loaded (rmtree dir).
Proof. intros w Hw. assumption. Qed.

Section Loaded.

Context {X : Externals}.

Lemma keeps_loaded_draw_uuid : keeps_loaded draw_uuid.
Proof. intros w Hw. assumption. Qed.

Lemma keeps_loaded_cv2_imwrite path r : keeps_loaded (cv2_imwrite path r).
Proof. intros w Hw. unfold cv2_imwrite. destruct (disk_ok path); assumption. Qed.

Lemma keeps_loaded_Image_save path im : keeps_loaded (Image_save path im).
Proof. intros w Hw. unfold Image_save. destruct (disk_ok path); assumption. Qed.

Lemma keeps_loaded_write_text path : keeps_loaded (write_text path).
Proof. intros w Hw. unfold write_text. destruct (disk_ok path); assumption. Qed.

Lemma keeps_loaded_run_process args : keeps_loaded (run_process args).
Proof.
intros w Hw. unfold run_process. destruct (subprocess_run args (files w)). assumption.
Qed.

Lemma keeps_loaded_initialize_models : keeps_loaded initialize_models.
Proof. intros w Hw. unfold initialize_models. rewrite Hw. assumption. Qed.

Lemma keeps_loaded_save_masks sid ms : keeps_loaded (save_masks sid ms).
Proof.
induction ms as [|[i md] ms IH]; cbn [save_masks].
- apply keeps_loaded_ret.
- apply keeps_loaded_bind; [apply keeps_loaded_cv2_imwrite | intros _; assumption].
Qed.

Lemma keeps_loaded_segment_image im sid : keeps_loaded (segment_image im sid).
Proof.
unfold segment_image.
apply keeps_loaded_bind; [apply keeps_loaded_initialize_models | intros _].
apply keeps_loaded_bind; [apply keeps_loaded_save_masks | intros _].
apply keeps_loaded_bind; [apply keeps_loaded_write_text | intros _].
apply keeps_loaded_ret.
Qed.

Lemma keeps_loaded_inpaint_with_lama im mask sid device :
keeps_loaded (inpaint_with_lama im mask sid device).
Proof.
unfold inpaint_with_lama.
apply keeps_loaded_bind; [apply keeps_loaded_Image_save | intros _].
apply keeps_loaded_bind; [apply keeps_loaded_cv2_imwrite | intros ok].
destruct (negb ok); [apply keeps_loaded_raise|].
apply keeps_loaded_bind; [apply keeps_loaded_run_process | intros rc].
destruct (negb (rc =? 0)); [apply keeps_loaded_raise|].
apply keeps_loaded_bind; [apply keeps_loaded_get_files | intros fs].
destruct (first_existing fs _); [|apply keeps_loaded_raise].
apply keeps_loaded_bind; [apply keeps_loaded_lift | intros res].
apply keeps_loaded_bind; [apply keeps_loaded_rmtree | intros _].
apply keeps_loaded_bind; [apply keeps_loaded_rmtree | intros _].
apply keeps_loaded_ret.
Qed.

Lemma keeps_loaded_process_target ref_image session idx t :
keeps_loaded (process_target ref_image session idx t).
Proof.
unfold process_target.
apply keeps_loaded_bind; [apply keeps_loaded_lift | intros timg].
apply keeps_loaded_bind; [apply keeps_loaded_segment_image | intros masks].
apply keeps_loaded_bind; [apply keeps_loaded_lift | intros face].
destruct face as [face|]; [|apply keeps_loaded_raise].
apply keeps_loaded_bind; [apply keeps_loaded_get_files | intros fs].
apply keeps_loaded_bind; [apply keeps_loaded_lift | intros mask_idx].
destruct (cv2_imread fs _); [|apply keeps_loaded_raise].
apply keeps_loaded_bind; [apply keeps_loaded_inpaint_with_lama | intros res].
apply keeps_loaded_bind; [apply keeps_loaded_draw_uuid | intros u].
apply keeps_loaded_bind; [apply keeps_loaded_Image_save | intros _].
apply keeps_loaded_bind; [apply keeps_loaded_get_files | intros fs'].
destruct (negb _); [apply keeps_loaded_raise|].
apply keeps_loaded_bind; [|intros _; apply keeps_loaded_ret].
apply keeps_loaded_try; [|intros e; apply keeps_loaded_raise].
apply keeps_loaded_bind; [apply keeps_loaded_lift | intros _; apply keeps_loaded_ret].
Qed.

Lemma keeps_loaded_process_loop ref_image session ts :
forall results, keeps_loaded (process_loop ref_image session ts results).
Proof.
induction ts as [|[idx t] ts IH]; intros results; cbn [process_loop].
- apply keeps_loaded_ret.
- apply keeps_loaded_bind; [|intros entry; apply IH].
  apply keeps_loaded_try; [apply keeps_loaded_process_target|].
  intros e. apply keeps_loaded_ret.
Qed.

(** X14. The flag of the loaded models is never reset: each stage and the
  endpoint leave it set when it was set, and a request that is answered
  with a response leaves it set in any case, so that [health] reports
  "healthy" from then on, also when images of the request failed. *)
Theorem process_images_models_stay_loaded reference targets sid w :
(models_loaded w = true ->
 models_loaded (fst (process_images reference targets sid w)) = true) /\
(forall w' resp,
    process_images reference targets sid w = (w', Return resp) ->
    health w' = ("healthy", true)).
Proof.
assert (Hbody : forall s,
           keeps_loaded
             (_ <~ initialize_models ;;
              ref_image <~ lift (Image_open_bytes (content reference)) ;;
              results <~ process_loop ref_image s (enumerate targets) [] ;;
              io_ret {| success := true; session_id := s; results := results;
                        processed := List.length (filter has_url results);
                        failed := List.length (filter has_error results) |})).
{ intros s.
  apply keeps_loaded_bind; [apply keeps_loaded_initialize_models | intros _].
  apply keeps_loaded_bind; [apply keeps_loaded_lift | intros ref_image].
  apply keeps_loaded_bind; [apply keeps_loaded_process_loop | intros results].
  apply keeps_loaded_ret. }
split.
- revert w. change (keeps_loaded (process_images reference targets sid)).
  unfold process_images.
  destruct (1 <? List.length targets)%nat; [apply keeps_loaded_raise|].
  apply keeps_loaded_bind.
  + destruct sid; [apply keeps_loaded_ret | apply keeps_loaded_draw_uuid].
  + intros s. apply keeps_loaded_try; [apply Hbody | intros e; apply keeps_loaded_raise].
- intros w' resp Hrun. unfold process_images in Hrun.
  destruct (1 <? List.length targets)%nat; [discriminate|].
  apply io_bind_Return in Hrun. destruct Hrun as (w0 & s & _ & Hrun).
  unfold try_except in Hrun.
  match type of Hrun with
  | context [match ?m w0 with (_, _) => _ end] =>
      destruct (m w0) as [w1 [resp1|e]] eqn:Hm; [|discriminate]
  end.
  injection Hrun as <- <-.
  apply io_bind_Return in Hm. destruct Hm as (w2 & [] & Hinit & Hrest).
  assert (H2 : models_loaded w2 = true).
  { unfold initialize_models in Hinit. destruct (models_loaded w0) eqn:E.
    - injection Hinit as <-. assumption.
    - destruct load_sam; [|discriminate]. injection Hinit as <-. reflexivity. }
  assert (Hk : models_loaded w1 = true).
  { assert (Hkeep : keeps_loaded
              (ref_image <~ lift (Image_open_bytes (content reference)) ;;
               results <~ process_loop ref_image s (enumerate targets) [] ;;
               io_ret {| success := true; session_id := s; results := results;
                         processed := List.length (filter has_url results);
                         failed := List.length (filter has_error results) |})).
    { apply keeps_loaded_bind; [apply keeps_loaded_lift | intros ref_image].
      apply keeps_loaded_bind; [apply keeps_loaded_process_loop | intros results].
      apply keeps_loaded_ret. }
    specialize (Hkeep w2 H2). rewrite Hrest in Hkeep. assumption. }
  unfold health. rewrite Hk. reflexivity.
Qed.

(** X1. [initialize_models] is idempotent: after a call that succeeded the
  flag is set and a further call changes nothing and succeeds without
  loading again, whatever loading would do; a call that fails leaves the
  world as it was, so that the next call tries again. *)
Theorem initialize_models_idempotent (w : world) :
(forall w1, initialize_models w = (w1, Return tt) ->
            models_loaded w1 = true /\ files w1 = files w /\
            initialize_models w1 = (w1, Return tt)) /\
(forall w1 e, initialize_models w = (w1, Raise e) ->
              w1 = w /\ models_loaded w = false /\ load_sam = Raise e).
Proof.
unfold initialize_models. split.
- intros w1 H. destruct (models_loaded w) eqn:E.
  + injection H as <-. rewrite E. repeat split; assumption.
  + destruct load_sam; [|discriminate]. injection H as <-. repeat split.
- intros w1 e H. destruct (models_loaded w) eqn:E; [discriminate|].
  destruct load_sam as [u|e0]; [discriminate|]. injection H as <- <-.
  repeat split.
Qed.

End Loaded.

(** ** Files after the inpainting *)

Lemma lookup_filter (g : string -> bool) (fs : filesystem) (p : string) :
  lookup (filter (fun pf => g (fst pf)) fs) p = if g p then lookup fs p else None.
Proof.
  induction fs as [|[q f] fs IH]; [destruct (g p); reflexivity|].
  cbn [filter fst]. destruct (g q) eqn:Hq.
  - cbn [lookup]. destruct (String.eqb q p) eqn:E.
    + apply String.eqb_eq in E. subst q. rewrite Hq. reflexivity.
    + exact IH.
  - cbn [lookup]. destruct (String.eqb q p) eqn:E.
    + apply String.eqb_eq in E. subst q. rewrite IH, Hq. reflexivity.
    + exact IH.
Qed.

Section InpaintingFiles.

Context {X : Externals}.

(** The world and the outcome of [inpaint_with_lama] once its two input
  files are written. *)
Lemma inpaint_with_lama_run
    (im : image) (mask : raster) (sid device : string) (w : world) :
let work_dir := work_dir_of sid in
let out_dir := out_dir_of sid in
let w1 := write_file (path_join work_dir "image_mask001.png") (GrayPng mask)
            (write_file (path_join work_dir "image.png") (RgbImage im) w) in
let run := subprocess_run (lama_args work_dir out_dir device) (files w1) in
disk_ok (path_join work_dir "image.png") = true ->
disk_ok (path_join work_dir "image_mask001.png") = true ->
inpaint_with_lama im mask sid device w =
  if negb (fst run =? 0)
  then (set_files (snd run) w1,
        Raise (RuntimeError
                 ("LaMa prediction failed with return code " ++ str_of_Z (fst run))))
  else
    match first_existing (snd run) (possible_outputs out_dir) with
    | None => (set_files (snd run) w1,
               Raise (FileNotFoundError ("LaMa output not found in " ++ out_dir)))
    | Some result_path =>
        match Image_open (snd run) result_path with
        | Return result =>
            (set_files
               (filter (fun pf => negb (under out_dir (fst pf)))
                  (filter (fun pf => negb (under work_dir (fst pf))) (snd run))) w1,
             Return result)
        | Raise e => (set_files (snd run) w1, Raise e)
        end
    end.
Proof.
intros work_dir out_dir w1 run Hd1 Hd2.
unfold inpaint_with_lama, io_bind at 1 2, Image_save, cv2_imwrite.
fold work_dir out_dir. change (base_name ++ ".png")%string with "image.png".
change (base_name ++ "_mask001.png")%string with "image_mask001.png".
rewrite Hd1, Hd2. cbn [negb]. fold w1.
unfold io_bind at 1, run_process. fold run.
destruct run as [rc fs']. cbn [fst snd].
destruct (negb (rc =? 0)); [reflexivity|].
unfold io_bind at 1, get_files. cbn [files set_files].
destruct (first_existing fs' (possible_outputs out_dir)) as [p0|]; [|reflexivity].
unfold io_bind, lift, rmtree, io_ret.
destruct (Image_open fs' p0); reflexivity.
Qed.

(** X10. When [inpaint_with_lama] returns an image, the two working
  directories of the session are gone (no file under either remains) and
  every other file is as the subprocess left it; when it raises after the
  subprocess has run, nothing is removed: the files are exactly those the
  subprocess left. *)
Theorem inpaint_with_lama_cleanup
      (im : image) (mask : raster) (sid device : string) (w : world) :
let work_dir := work_dir_of sid in
let out_dir := out_dir_of sid in
let w1 := write_file (path_join work_dir "image_mask001.png") (GrayPng mask)
            (write_file (path_join work_dir "image.png") (RgbImage im) w) in
let fs := snd (subprocess_run (lama_args work_dir out_dir device) (files w1)) in
disk_ok (path_join work_dir "image.png") = true ->
disk_ok (path_join work_dir "image_mask001.png") = true ->
match snd (inpaint_with_lama im mask sid device w) with
| Return _ =>
    forall p,
      lookup (files (fst (inpaint_with_lama im mask sid device w))) p =
        if under work_dir p || under out_dir p then None else lookup fs p
| Raise _ => files (fst (inpaint_with_lama im mask sid device w)) = fs
end.
Proof.
intros work_dir out_dir w1 fs Hd1 Hd2.
rewrite (inpaint_with_lama_run im mask sid device w Hd1 Hd2).
fold work_dir out_dir w1 fs.
destruct (negb (fst (subprocess_run (lama_args work_dir out_dir device) (files w1)) =? 0));
  [reflexivity|].
destruct (first_existing fs (possible_outputs out_dir)) as [p0|]; [|reflexivity].
destruct (Image_open fs p0); [|reflexivity].
cbn [fst snd files set_files]. intros p.
rewrite (lookup_filter (fun q => negb (under out_dir q))).
rewrite (lookup_filter (fun q => negb (under work_dir q))).
destruct (under work_dir p); destruct (under out_dir p); reflexivity.
Qed.

End InpaintingFiles.

(** X8. A face box of positive width and height that lies outside the
    raster of every candidate (above, below, left or right of it) meets
    neither test, and the selection raises "No masks overlap with the
    detected face". *)
Theorem select_best_mask_face_outside fs face sid masks :
  bb_left face < bb_right face ->
  bb_top face < bb_bottom face ->
  (forall i md r,
      nth_error masks i = Some md ->
      cv2_imread fs (mask_path sid i) = Some r ->
      bb_bottom face <= 0 \/ bb_right face <= 0 \/
      fst (shape r) <= bb_top face \/ snd (shape r) <= bb_left face) ->
  select_best_mask fs face sid masks =
    Raise (ValueError "No masks overlap with the detected face").
Proof.
  intros Hw Hh Hout. apply select_best_mask_none_kept; intros j md Hj.
  - unfold tier1_okb. destruct (cv2_imread fs (mask_path sid j)) as [r|] eqn:Hr; [|reflexivity].
    apply overlap_pct_empty. unfold overlap_count.
    specialize (Hout j md r Hj Hr). destruct (shape r) as [h w]. cbn [fst snd] in Hout.
    apply count_nonzero_crop_empty. lia.
  - unfold center_hitb, face_center_x, face_center_y.
    destruct (cv2_imread fs (mask_path sid j)) as [r|] eqn:Hr; [|reflexivity].
    specialize (Hout j md r Hj Hr). destruct (shape r) as [h w]. cbn [fst snd] in Hout.
    destruct ((0 <=? (bb_top face + bb_bottom face) / 2)
              && ((bb_top face + bb_bottom face) / 2 <? h)
              && (0 <=? (bb_left face + bb_right face) / 2)
              && ((bb_left face + bb_right face) / 2 <? w)) eqn:E; [|reflexivity].
    exfalso. rewrite !andb_true_iff, !Z.leb_le, !Z.ltb_lt in E.
    pose proof (Z.div_mod (bb_top face + bb_bottom face) 2 ltac:(lia)).
    pose proof (Z.mod_pos_bound (bb_top face + bb_bottom face) 2 ltac:(lia)).
    pose proof (Z.div_mod (bb_left face + bb_right face) 2 ltac:(lia)).
    pose proof (Z.mod_pos_bound (bb_left face + bb_right face) 2 ltac:(lia)).
    lia.
Qed.

(** ** More on the endpoint *)

Section EndpointOutcomes.

Context {X : Externals}.



Lemma process_target_face_raises
    ref_image session idx target_file w target_image w1 masks e :
Image_open_bytes (content target_file) = Return target_image ->
segment_image target_image (session ++ "_" ++ str_of_nat idx) w = (w1, Return masks) ->
find_matching_face target_image ref_image = Raise e ->
process_target ref_image session idx target_file w = (w1, Raise e).
Proof.
intros Hdec Hseg Hface. unfold process_target.
unfold io_bind at 1, lift at 1. rewrite Hdec.
unfold io_bind at 1. rewrite Hseg.
unfold io_bind at 1, lift at 1. rewrite Hface. reflexivity.
Qed.

(** X12. A reference image in which no face is detected does not fail the
  request: the target is segmented, its entry reports "No faces found in
  query image", and the response is a success with one failed image. *)
Theorem process_images_no_reference_face reference target_file s w ref_image target_image :
models_loaded w = true \/ load_sam = Return tt ->
Image_open_bytes (content reference) = Return ref_image ->
face_locations ref_image = [] ->
Image_open_bytes (content target_file) = Return target_image ->
disk_ok (path_join (path_join MASK_DIR (s ++ "_0")) "mask_metadata.txt") = true ->
exists w',
  process_images reference [target_file] (Some s) w =
    (w', Return {| success := true; session_id := s;
                   results := [Failed (filename target_file)
                                      "No faces found in query image"];
                   processed := 0; failed := 1 |}) /\
  forall i md, nth_error (generate target_image) i = Some md ->
               disk_ok (mask_path (s ++ "_0") i) = true ->
               cv2_imread (files w') (mask_path (s ++ "_0") i)
                 = Some (mask_uint8 (segmentation md)).
Proof.
intros Hmodels Href Hnoface Hdec Hmeta.
unfold process_images. cbn [List.length Nat.ltb Nat.leb].
unfold io_bind at 1, io_ret at 1. unfold try_except, io_bind at 1.
destruct (initialize_models_ok w Hmodels) as (w1 & Hinit & Hf1).
rewrite Hinit. unfold io_bind at 1, lift at 1. rewrite Href.
unfold io_bind at 1. unfold enumerate. cbn [enumerate_from].
rewrite process_loop_cons.
assert (Hm1 : models_loaded w1 = true \/ load_sam = Return tt).
{ destruct Hmodels as [Hm | Hl]; [|right; assumption].
  left. unfold initialize_models in Hinit. rewrite Hm in Hinit.
  injection Hinit as <-. assumption. }
destruct (segment_image_files target_image (s ++ "_0") w1 Hm1 Hmeta)
  as (w2 & Hseg & _ & Hread).
assert (Hface : find_matching_face target_image ref_image
                = Raise (ValueError "No faces found in query image")).
{ unfold find_matching_face. rewrite Hnoface. reflexivity. }
rewrite (process_target_face_raises ref_image s 0%nat target_file w1 target_image w2
           (generate target_image) _ Hdec Hseg Hface).
cbn [fst snd entry_of str app process_loop]. unfold io_ret.
exists w2. split; [reflexivity|].
intros i md Hi Hok. rewrite (Hread i md Hi), Hok. reflexivity.
Qed.

(** X13. When the model cannot be loaded or the reference image cannot be
  decoded, a request with at most one target is answered with status 500
  and the detail "Processing failed: " followed by the message of the
  exception, and no file has been written. *)
Theorem process_images_processing_failed reference targets sid w e :
(List.length targets <= 1)%nat ->
(models_loaded w = false /\ load_sam = Raise e) \/
((models_loaded w = true \/ load_sam = Return tt) /\
 Image_open_bytes (content reference) = Raise e) ->
exists w',
  process_images reference targets sid w =
    (w', Raise (HTTPException 500 ("Processing failed: " ++ str e))) /\
  files w' = files w.
Proof.
intros Hlen Hfail. unfold process_images.
replace (1 <? List.length targets)%nat with false by (symmetry; apply Nat.ltb_ge; lia).
unfold io_bind at 1.
set (pick := match sid with None => draw_uuid | Some s => io_ret s end).
assert (Hpick : exists w0 s, pick w = (w0, Return s) /\
                             models_loaded w0 = models_loaded w /\ files w0 = files w).
{ subst pick. destruct sid; eexists; eexists; repeat split; reflexivity. }
destruct Hpick as (w0 & s & -> & Hm0 & Hf0).
unfold try_except, io_bind at 1.
destruct Hfail as [[Hm Hload] | [Hmodels Href]].
- unfold initialize_models. rewrite Hm0, Hm, Hload. unfold io_raise.
  exists w0. split; [reflexivity | assumption].
- destruct (initialize_models_ok w0) as (w1 & -> & Hf1); [rewrite Hm0; assumption|].
  unfold io_bind at 1, lift at 1. rewrite Href. unfold io_raise.
  exists w1. split; [reflexivity | congruence].
Qed.

End EndpointOutcomes.

(** ** Segmentation and selection together *)

Section SegmentThenSelect.

Context {X : Externals}.

(** X15. When every write goes through, the mask that is selected after
  the segmentation is a mask of the generator whose segmentation has at
  least a tenth of the (positive) face area true inside the face box, or
  is true at the centre of the face box. *)
Theorem segment_then_select (im : image) (sid : string) (w w' : world)
      (masks : list mask_data) (face : face_bbox) (i : nat) :
(forall p, disk_ok p = true) ->
segment_image im sid w = (w', Return masks) ->
select_best_mask (files w') face sid masks = Return i ->
exists md,
  masks = generate im /\ nth_error masks i = Some md /\
  ((0 < face_area face /\
    face_area face <= 10 * Z.of_nat (List.length (true_cells face (segmentation md)))) \/
   (0 <= face_center_y face /\ 0 <= face_center_x face /\
    segmentation_at (segmentation md)
      (Z.to_nat (face_center_y face)) (Z.to_nat (face_center_x face)) = true)).
Proof.
intros Hdisk Hseg Hsel.
assert (Hmodels : models_loaded w = true \/ load_sam = Return tt).
{ unfold segment_image, io_bind at 1, initialize_models in Hseg.
  destruct (models_loaded w); [left; reflexivity|].
  destruct load_sam as [[]|e]; [right; reflexivity | discriminate]. }
destruct (segment_image_files im sid w Hmodels (Hdisk _)) as (w2 & Hrun & _ & Hread).
rewrite Hrun in Hseg. injection Hseg as -> <-.
destruct (select_best_mask_outcome (files w') face sid (generate im))
  as [(i' & md & r & Hsel' & Hnth & Hr & Hpass) | [Hsel' _]];
  rewrite Hsel' in Hsel; [|discriminate].
injection Hsel as ->. exists md. split; [reflexivity|]. split; [assumption|].
rewrite (Hread i md Hnth), Hdisk in Hr. injection Hr as <-.
destruct Hpass as [(r & Hr & Hq) | (r & Hr & Hy & Hx & Hp)];
  rewrite (Hread i md Hnth), Hdisk in Hr; injection Hr as <-.
- left. apply overlap_pct_bounds in Hq.
  rewrite overlap_count_of_segmentation in Hq. assumption.
- right. unfold face_center_x, face_center_y.
  split; [lia|]. split; [lia|].
  rewrite <- (Z2Nat.id ((bb_top face + bb_bottom face) / 2)) in Hp by lia.
  rewrite <- (Z2Nat.id ((bb_left face + bb_right face) / 2)) in Hp by lia.
  rewrite pixel_mask_uint8 in Hp.
  destruct (segmentation_at _ _ _); [reflexivity | lia].
Qed.

(** X16. [startup_event] never raises: a failed warm-up is swallowed and
  leaves the world as it was, and afterwards [health] reports "healthy"
  exactly when the models were loaded before or loading succeeded. *)
Theorem startup_event_swallows_failure (w : world) :
exists w', startup_event w = (w', Return tt) /\ files w' = files w /\
  (w' = w \/ models_loaded w' = true) /\
  (health w' = ("healthy", true) <->
   models_loaded w = true \/ exists u, load_sam = Return u).
Proof.
unfold startup_event, try_except, initialize_models, health.
destruct (models_loaded w) eqn:Hm.
- exists w. rewrite Hm. repeat split; try discriminate; auto.
- destruct load_sam as [u|e] eqn:Hl.
  + eexists. split; [destruct u; reflexivity|]. split; [reflexivity|].
    cbn [models_loaded]. split; [right; reflexivity|].
    split; [intros _; right; exists u; reflexivity | reflexivity].
  + exists w. unfold io_ret. rewrite Hm. split; [reflexivity|]. split; [reflexivity|].
    split; [left; reflexivity|].
    split; [discriminate | intros [H | [u Hu]]; discriminate].
Qed.

End SegmentThenSelect.

(** ** The properties above on the sample instance *)

Lemma initialize_models_idempotent_witness :
  models_loaded Sample2.loaded_world = true /\
  files Sample2.loaded_world = files Sample.empty_world /\
  @initialize_models Sample.externals Sample2.loaded_world
    = (Sample2.loaded_world, Return tt).
Proof.
  apply (proj1 (@initialize_models_idempotent Sample.externals Sample.empty_world)
               Sample2.loaded_world).
  reflexivity.
Defined.

Lemma segment_image_read_back_witness :
  exists w',
    @segment_image Sample.externals Sample.photo_a "S_0" Sample.empty_world
      = (w', Return [Sample.full_mask]) /\
    (forall i md,
        nth_error [Sample.full_mask] i = Some md ->
        true = true ->
        cv2_imread (files w') (mask_path "S_0" i) = Some (mask_uint8 (segmentation md))) /\
    (forall i md,
        nth_error [Sample.full_mask] i = Some md ->
        true = false ->
        cv2_imread (files w') (mask_path "S_0" i)
          = cv2_imread (files Sample.empty_world) (mask_path "S_0" i)).
Proof.
  apply (@segment_image_read_back Sample.externals Sample.photo_a "S_0" Sample.empty_world).
  - right. reflexivity.
  - reflexivity.
Defined.

Lemma tier1_loop_entries_bounds_witness :
  match tier1_loop Sample.three_files Sample.face_10 "s" (enumerate Sample.three_masks) [] with
  | Return l =>
      Forall (fun e => (10 <= overlap_percentage e)%Q /\ (overlap_percentage e <= 100)%Q /\
                       0 < face_area Sample.face_10 /\
                       face_area Sample.face_10 <= 10 * overlap_pixels e /\
                       overlap_pixels e <= face_area Sample.face_10) l
  | Raise _ => False
  end.
Proof.
  destruct (tier1_loop Sample.three_files Sample.face_10 "s" (enumerate Sample.three_masks) [])
    as [l|e] eqn:E.
  - apply (tier1_loop_entries_bounds Sample.three_files Sample.face_10 "s"
             (enumerate Sample.three_masks) [] l (Forall_nil _) E).
  - vm_compute in E. discriminate.
Defined.

Lemma select_best_mask_returns_loadable_witness :
  (1 < List.length Sample.three_masks)%nat /\
  (exists r, cv2_imread Sample.three_files (mask_path "s" 1) = Some r) /\
  (qualifies_tier1 Sample.three_files Sample.face_10 "s" 1 \/
   center_hit Sample.three_files Sample.face_10 "s" 1).
Proof.
  apply (proj1 (select_best_mask_returns_loadable Sample.three_files Sample.face_10 "s"
                  Sample.three_masks) 1%nat).
  reflexivity.
Defined.

Lemma select_best_mask_own_files_witness :
  select_best_mask Sample.three_files Sample.face_10 "s" Sample.three_masks
  = select_best_mask Sample2.files_with_other_session Sample.face_10 "s" Sample.three_masks.
Proof.
  apply (select_best_mask_own_files Sample.three_files Sample2.files_with_other_session
           Sample.face_10 "s" Sample.three_masks).
  intros i Hi. reflexivity.
Defined.

Lemma select_best_mask_face_outside_witness :
  select_best_mask Sample.center_files Sample.far_face "c" Sample.center_masks
  = Raise (ValueError "No masks overlap with the detected face").
Proof.
  apply (select_best_mask_face_outside Sample.center_files Sample.far_face "c"
           Sample.center_masks).
  - simpl. lia.
  - simpl. lia.
  - intros i md r Hi Hr. right. right. left.
    destruct i as [|[|[|i]]];
      try (vm_compute in Hr; injection Hr as <-; vm_compute; discriminate).
    simpl in Hi. destruct i; discriminate.
Defined.

Lemma find_matching_face_sound_witness :
  @face_locations Sample.externals Sample.reference_photo <> [] /\
  (5 # 10 <= 6 # 10)%Q /\
  exists j, nth_error (@face_locations Sample.externals Sample.photo_crowd) j
            = Some (0, 4, 2, 2).
Proof.
  apply (@find_matching_face_sound Sample.externals Sample.photo_crowd
           Sample.reference_photo (face_of (0, 4, 2, 2) (5 # 10))).
  reflexivity.
Defined.

Lemma inpaint_with_lama_cleanup_witness :
  lookup (files (fst (@inpaint_with_lama Sample.externals Sample.photo_a
                        Sample.dot_raster "s_0" "cuda" Sample.empty_world)))
         (path_join (work_dir_of "s_0") "image.png") = None /\
  lookup (files (fst (@inpaint_with_lama Sample.externals Sample.photo_a
                        Sample.dot_raster "s_0" "cuda" Sample.empty_world)))
         (path_join (out_dir_of "s_0") "image_mask001.png") = None.
Proof.
  assert (H : forall p,
             lookup (files (fst (@inpaint_with_lama Sample.externals Sample.photo_a
                                   Sample.dot_raster "s_0" "cuda" Sample.empty_world))) p =
               if under (work_dir_of "s_0") p || under (out_dir_of "s_0") p
               then None
               else lookup
                      (snd (@subprocess_run Sample.externals
                              (@lama_args Sample.externals (work_dir_of "s_0")
                                 (out_dir_of "s_0") "cuda")
                              [(path_join (work_dir_of "s_0") "image_mask001.png",
                                GrayPng Sample.dot_raster);
                               (path_join (work_dir_of "s_0") "image.png",
                                RgbImage Sample.photo_a)])) p)
    by exact (@inpaint_with_lama_cleanup Sample.externals Sample.photo_a Sample.dot_raster
                "s_0" "cuda" Sample.empty_world eq_refl eq_refl).
  split; rewrite H; reflexivity.
Defined.


Lemma process_images_no_reference_face_witness :
  exists w',
    @process_images Sample2.externals (Sample.upload "r.jpg" "blank")
      [Sample.upload "a.jpg" "a"] (Some "S") Sample.empty_world =
      (w', Return {| success := true; session_id := "S";
                     results := [Failed "a.jpg" "No faces found in query image"];
                     processed := 0; failed := 1 |}) /\
    forall i md, nth_error [Sample.full_mask] i = Some md ->
                 true = true ->
                 cv2_imread (files w') (mask_path "S_0" i)
                   = Some (mask_uint8 (segmentation md)).
Proof.
  apply (@process_images_no_reference_face Sample2.externals (Sample.upload "r.jpg" "blank")
           (Sample.upload "a.jpg" "a") "S" Sample.empty_world Sample.photo_empty
           Sample.photo_a).
  - right. reflexivity.
  - reflexivity.
  - reflexivity.
  - reflexivity.
  - reflexivity.
Defined.

Lemma process_images_processing_failed_witness :
  exists w',
    @process_images Sample.externals (Sample.upload "r.jpg" "x")
      [Sample.upload "a.jpg" "a"] None Sample.empty_world =
      (w', Raise (HTTPException 500 "Processing failed: cannot identify image file")) /\
    files w' = files Sample.empty_world.
Proof.
  apply (@process_images_processing_failed Sample.externals (Sample.upload "r.jpg" "x")
           [Sample.upload "a.jpg" "a"] None Sample.empty_world
           (UnidentifiedImageError "cannot identify image file")).
  - simpl. lia.
  - right. split; [right; reflexivity | reflexivity].
Defined.

Lemma process_images_models_stay_loaded_witness :
  health (fst (@process_images Sample.externals (Sample.upload "r.jpg" "ref")
                 [Sample.upload "s.jpg" "stranger"] None Sample.empty_world))
  = ("healthy", true).
Proof.
  eapply (proj2 (@process_images_models_stay_loaded Sample.externals
                   (Sample.upload "r.jpg" "ref") [Sample.upload "s.jpg" "stranger"] None
                   Sample.empty_world)).
  vm_compute. reflexivity.
Defined.

Lemma segment_then_select_witness :
  exists md,
    [Sample.full_mask] = @generate Sample.externals Sample.photo_a /\
    nth_error [Sample.full_mask] 0 = Some md /\
    ((0 < face_area Sample2.face_a /\
      face_area Sample2.face_a
        <= 10 * Z.of_nat (List.length (true_cells Sample2.face_a (segmentation md)))) \/
     (0 <= face_center_y Sample2.face_a /\ 0 <= face_center_x Sample2.face_a /\
      segmentation_at (segmentation md)
        (Z.to_nat (face_center_y Sample2.face_a))
        (Z.to_nat (face_center_x Sample2.face_a)) = true)).
Proof.
  apply (@segment_then_select Sample.externals Sample.photo_a "S_0" Sample.empty_world
           (fst (@segment_image Sample.externals Sample.photo_a "S_0" Sample.empty_world))
           [Sample.full_mask] Sample2.face_a 0%nat).
  - intros p. reflexivity.
  - reflexivity.
  - reflexivity.
Defined.
